(** * The MOT ingestion pipeline: registry, orchestration, normalisation, discovery

    A shallow embedding of the Python package [mot_ingestion]
    (state.py, pipeline.py, schema.py, discovery.py, checksum.py and the thin
    wrappers parser.py, storage.py, bigquery.py, serializer.py) and the proofs
    of the properties its specification states.

    Conventions of the embedding.
    - A Python [str] is a [string], one character for each code point; the
      model has the code points 0 to 255.  The bytes of a file are a [string]
      too.
    - A [pathlib.Path] is the list of its parts, the anchor ["/"] first when
      the path is absolute.
    - A call that may raise returns a [Res]; code that talks to the outside
      world (BigQuery, GCS, the file system, the clock) runs in the monad [M],
      which threads a [World] and consults the oracles of an [Env].  Every
      exception of the model is an instance of Python's [Exception].
    - Logging has no effect on any value and is left out. *)

From Stdlib Require Import ZArith Ascii String List Lia Bool.
From Stdlib Require Import Floats.SpecFloat.
From stdpp Require Import base option list sorting strings pretty gmap.

Local Open Scope string_scope.
Local Open Scope Z_scope.
Local Open Scope list_scope.

#[local] Set Warnings "-clear-no-such-hyp".

(** ** Exceptions and results *)

(** The exception classes the code distinguishes.  [except (ValueError,
    TypeError)] selects by class; [except Exception] takes them all. *)
Inductive ExcClass : Set :=
| ValueError | TypeError | OverflowError | RuntimeError | OSError | OtherError.

(** An exception: its class and [str(e)]. *)
Record exn : Set := Exc { exc_class : ExcClass; exc_msg : string }.

Inductive Res (A : Type) : Type :=
| Returned (a : A)
| Raised (e : exn).
Arguments Returned {A} a.
Arguments Raised {A} e.

Definition is_returned {A} (r : Res A) : bool :=
  match r with Returned _ => true | Raised _ => false end.

(** ** Paths *)

Definition Path : Type := list string.

Definition is_absolute (p : Path) : bool :=
  match p with
  | a :: _ => bool_decide (a = "/")
  | [] => false
  end.

(** [PurePath.name]: the final component, [""] for an empty path or a bare
    anchor. *)
Definition path_name (p : Path) : string :=
  if is_absolute p then
    match p with
    | [_] => ""
    | _ => List.last p ""
    end
  else List.last p "".

Fixpoint join_parts (l : list string) : string :=
  match l with
  | [] => ""
  | [a] => a
  | a :: rest => a +:+ "/" +:+ join_parts rest
  end.

(** [str(path)]. *)
Definition path_str (p : Path) : string :=
  match p with
  | [] => "."
  | a :: rest => if decide (a = "/") then "/" +:+ join_parts rest else join_parts p
  end.

(** ** The registry table (state.py) *)

Inductive Status : Set := SUCCESS | FAILED.

#[global] Instance Status_eq_dec : EqDecision Status.
Proof. solve_decision. Defined.

(** One row of the registry table.  [processed_at] is the instant
    [datetime.utcnow()] read when the row was built, in microseconds; the JSON
    row carries its ISO rendering and BigQuery orders by the instant. *)
Record FileRecord : Set := mkFileRecord {
  file_name : string;
  checksum : string;
  processed_at : Z;
  status : Status;
  error_message : option string;
  row_count : option Z;
}.

(** What [client.insert_rows_json] can do: return an empty error list (the
    row is in the table), return a non-empty error list (it is not), or
    raise. *)
Inductive InsertOutcome : Set :=
| InsertOk
| InsertErrors (errors : string)
| InsertRaises (e : exn).

(** ** Normalised values (schema.py) *)

(** What [_cast_value] can return: [None], a [str], an [int], a [float]
    (a binary64 value, as a [spec_float]) or a [bool]. *)
Inductive Value : Set :=
| VNone
| VStr (s : string)
| VInt (z : Z)
| VFloat (f : spec_float)
| VBool (b : bool).

(** A row read by [csv.DictReader]: header name to cell, where a cell missing
    from a short line is Python's [None]. *)
Abbreviation RawRow := (gmap string (option string)).

(** A normalised row: a Python [dict] whose iteration order matters to the
    serializer, kept as the list of its items in insertion order. *)
Definition NormRow : Type := list (string * Value).

(** ** The world *)

(** Calls made to the collaborators, in the order they were made. *)
Inductive Event : Type :=
| EvRegistryGetTable
| EvRegistryCreateTable
| EvTableExists
| EvCreateTable
| EvGlob (pattern : string)
| EvReadFile (p : Path)
| EvQuery (name : string)
| EvInsert (r : FileRecord)
| EvParse (p : Path)
| EvSerialize (data : list NormRow) (stem : string)
| EvUpload (local_path : Path)
| EvLoad (gcs_uri : string).

Record World : Type := mkWorld {
  registry : list FileRecord;  (* rows of the registry table, oldest insert first *)
  trace : list Event;          (* collaborator calls so far, oldest first *)
  ticks : nat;                 (* consultations of the outside world so far *)
}.

(** The behaviour of everything outside the package.  Each oracle is asked
    with the current tick, so its answers may change over time. *)
Record Env : Type := mkEnv {
  utcnow : nat -> Z;                                       (* datetime.utcnow() *)
  isoformat : Z -> string;                                 (* datetime.isoformat() *)
  registry_get_table : nat -> Res unit;                    (* registry client.get_table *)
  registry_create_table : nat -> Res unit;                 (* registry client.create_table *)
  query_fault : nat -> string -> option exn;               (* client.query(...).result() raising *)
  insert_rows_json : nat -> FileRecord -> InsertOutcome;   (* client.insert_rows_json *)
  target_get_table : nat -> Res unit;                      (* loader client.get_table *)
  target_create_table : nat -> Res unit;                   (* loader client.create_table *)
  root_exists : nat -> bool;                               (* root_dir.exists() *)
  glob : nat -> string -> Res (list (Path * bool));        (* root_dir.glob, with is_file() *)
  read_chunks : nat -> Path -> Res (list string);          (* open + f.read(CHUNK_SIZE) loop *)
  hexdigest : string -> string -> string;                  (* hashlib: algorithm, content *)
  xlsx_rows : nat -> Path -> Res (list RawRow);            (* Xlsx2csv + csv.DictReader *)
  write_rows : nat -> string -> list NormRow -> string -> Res Path;  (* DataSerializer.serialize *)
  upload_from_filename : nat -> Path -> Res unit;          (* blob.upload_from_filename *)
  load_job : nat -> string -> Res string;                  (* load_table_from_uri + result *)
}.

(** ** The monad of effectful code *)

Definition M (A : Type) : Type := World -> Res A * World.

#[global] Instance M_ret : MRet M := fun A a w => (Returned a, w).
#[global] Instance M_bind : MBind M := fun A B f m w =>
  match m w with
  | (Returned a, w') => f a w'
  | (Raised e, w') => (Raised e, w')
  end.

Definition raise {A} (e : exn) : M A := fun w => (Raised e, w).

(** [try: body / except Exception as e: handler e]. *)
Definition try_except {A} (body : M A) (handler : exn -> M A) : M A := fun w =>
  match body w with
  | (Returned a, w') => (Returned a, w')
  | (Raised e, w') => handler e w'
  end.

(** One consultation of the outside world that leaves no event. *)
Definition tick (w : World) : World :=
  {| registry := registry w; trace := trace w; ticks := S (ticks w) |}.

(** One call to a collaborator: the event is logged and time advances. *)
Definition emit (ev : Event) (w : World) : World :=
  {| registry := registry w; trace := trace w ++ [ev]; ticks := S (ticks w) |}.

Definition call {A} (ev : Event) (oracle : nat -> Res A) : M A := fun w =>
  (oracle (ticks w), emit ev w).

Definition read_clock (E : Env) : M Z := fun w => (Returned (utcnow E (ticks w)), tick w).

(** ** Configuration (config.py) *)

Record SchemaField : Set := mkSchemaField {
  name : string;
  type : string;   (* STRING, INTEGER, FLOAT, BOOLEAN, DATE or TIMESTAMP; not validated *)
  mode : string;
}.

Record IngestionConfig : Type := mkIngestionConfig {
  input_directory : Path;
  gcs_bucket : string;
  gcs_prefix : string;
  schema : list SchemaField;
  file_pattern : string;
  output_format : string;
  checksum_algorithm : string;
  dry_run : bool;
  ignore_patterns : list string;
}.

(** ** FileRegistry (state.py) *)

Section Registry.
Context (E : Env).

(** [ensure_registry_exists]: [get_table]; on any exception, [create_table],
    whose own exception is not caught. *)
Definition ensure_registry_exists : M unit :=
  try_except
    (call EvRegistryGetTable (registry_get_table E))
    (fun _ => call EvRegistryCreateTable (registry_create_table E)).

(** The rows the query of [get_checksum] selects:
    [WHERE file_name = @file_name AND status = 'SUCCESS']. *)
Definition selected (file_name0 : string) (r : FileRecord) : Prop :=
  file_name r = file_name0 /\ status r = SUCCESS.

#[global] Instance selected_dec file_name0 r : Decision (selected file_name0 r).
Proof. unfold selected. apply _. Defined.

(** [ORDER BY processed_at DESC]: [a] may come before [b]. *)
Definition newer_first (a b : FileRecord) : Prop := processed_at b <= processed_at a.

#[global] Instance newer_first_dec a b : Decision (newer_first a b).
Proof. unfold newer_first. apply _. Defined.

(** [SELECT checksum ... ORDER BY processed_at DESC LIMIT 1] over the table.
    Among rows of equal [processed_at] BigQuery may pick any; the sort used
    here picks one of them. *)
Definition select_checksum (table : list FileRecord) (file_name0 : string) : list string :=
  take 1 (checksum <$> merge_sort newer_first (filter (selected file_name0) table)).

(** [client.query(query, job_config).result()]. *)
Definition client_query (file_name0 : string) : M (list string) := fun w =>
  (match query_fault E (ticks w) file_name0 with
   | Some e => Raised e
   | None => Returned (select_checksum (registry w) file_name0)
   end,
   emit (EvQuery file_name0) w).

(** [get_checksum]: the first row's checksum, [None] when there is no row
    and [None] when the query raises. *)
Definition get_checksum (file_name0 : string) : M (option string) :=
  try_except
    (result ← client_query file_name0;
     mret (match result with
           | row :: _ => Some row
           | [] => None
           end))
    (fun _ => mret None).

(** [client.insert_rows_json(table_ref, [row])], returning whether the
    error list is empty. *)
Definition client_insert (row : FileRecord) : M bool := fun w =>
  match insert_rows_json E (ticks w) row with
  | InsertOk =>
      (Returned true,
       {| registry := registry w ++ [row];
          trace := trace w ++ [EvInsert row];
          ticks := S (ticks w) |})
  | InsertErrors _ => (Returned false, emit (EvInsert row) w)
  | InsertRaises e => (Raised e, emit (EvInsert row) w)
  end.

(** [record_processing]: build the row, try the insert, log whatever
    happens. *)
Definition record_processing (file_name0 checksum0 : string) (status0 : Status)
    (error_message0 : option string) (row_count0 : option Z) : M unit :=
  now ← read_clock E;
  let row := {| file_name := file_name0;
                checksum := checksum0;
                processed_at := now;
                status := status0;
                error_message := error_message0;
                row_count := row_count0 |} in
  try_except
    (ok ← client_insert row;
     if ok : bool then mret tt else mret tt)
    (fun _ => mret tt).

(** [should_process]. *)
Definition should_process (file_path : Path) (checksum0 : string) : M bool :=
  stored_checksum ← get_checksum (path_name file_path);
  match stored_checksum with
  | None => mret true
  | Some stored =>
      if decide (stored <> checksum0) then mret true
      else mret false
  end.
End Registry.

(** ** ChecksumCalculator (checksum.py) *)

Section Checksum.
Context (E : Env).

(** [calculate]: the hasher is fed chunk by chunk; a failure to open or read
    is logged and raised again. *)
Definition calculate (algorithm : string) (file_path : Path) : M string :=
  if decide (algorithm = "md5" \/ algorithm = "sha256") then
    try_except
      (chunks ← call (EvReadFile file_path) (fun t => read_chunks E t file_path);
       mret (hexdigest E algorithm (fold_left String.append chunks "")))
      (fun e => raise e)
  else raise (Exc ValueError ("Unsupported algorithm: " +:+ algorithm)).
End Checksum.

(** ** The transform and load collaborators (parser.py, serializer.py,
       storage.py, bigquery.py) *)

Section Collaborators.
Context (E : Env).

(** [XLSXParser.parse]: every exception becomes a [ValueError]. *)
Definition parse (file_path : Path) : M (list RawRow) :=
  try_except
    (call (EvParse file_path) (fun t => xlsx_rows E t file_path))
    (fun e => raise (Exc ValueError
       ("Failed to parse " +:+ path_str file_path +:+ ": " +:+ exc_msg e))).

(** [DataSerializer.serialize]. *)
Definition serialize (format : string) (data : list NormRow) (file_stem : string) : M Path :=
  try_except
    (call (EvSerialize data file_stem) (fun t => write_rows E t format data file_stem))
    (fun e => raise e).

(** [GCSUploader.upload] with the default blob name. *)
Definition upload (bucket_name prefix : string) (local_path : Path) : M string :=
  let blob_name := path_name local_path in
  let blob_name := if decide (prefix = "") then blob_name else prefix +:+ "/" +:+ blob_name in
  try_except
    (_ ← call (EvUpload local_path) (fun t => upload_from_filename E t local_path);
     mret ("gs://" +:+ bucket_name +:+ "/" +:+ blob_name))
    (fun e => raise e).

(** [BigQueryLoader.load_from_gcs]: every exception becomes a
    [RuntimeError]. *)
Definition load_from_gcs (gcs_uri : string) : M string :=
  try_except
    (call (EvLoad gcs_uri) (fun t => load_job E t gcs_uri))
    (fun e => raise (Exc RuntimeError ("BigQuery load job failed: " +:+ exc_msg e))).

(** [BigQueryLoader.table_exists]. *)
Definition table_exists : M bool :=
  try_except
    (_ ← call EvTableExists (target_get_table E); mret true)
    (fun _ => mret false).

(** [BigQueryLoader.create_table]. *)
Definition create_table : M unit :=
  exists_ ← table_exists;
  if exists_ : bool then mret tt
  else try_except (call EvCreateTable (target_create_table E)) (fun e => raise e).
End Collaborators.

(** ** Python's built-in conversions used by schema.py *)

#[global] Instance Res_ret : MRet Res := fun A a => Returned a.
#[global] Instance Res_bind : MBind Res := fun A B f r =>
  match r with
  | Returned a => f a
  | Raised e => Raised e
  end.

(** A pure computation that may raise, run inside [M]. *)
Definition lift {A} (r : Res A) : M A := fun w => (r, w).

Definition code (c : ascii) : Z := Z.of_nat (nat_of_ascii c).

(** [Py_ISSPACE]: tab, line feed, vertical tab, form feed, carriage return,
    space. *)
Definition is_space (c : ascii) : bool :=
  ((9 <=? code c) && (code c <=? 13)) || (code c =? 32).

Definition is_digit (c : ascii) : bool := (48 <=? code c) && (code c <=? 57).

(** The lower-case form of a code point below 256: the letters A to Z and
    the accented capitals U+00C0 to U+00DE, the sign U+00D7 apart, move up by
    32. *)
Definition lower_char (c : ascii) : ascii :=
  if ((65 <=? code c) && (code c <=? 90)) ||
     ((192 <=? code c) && (code c <=? 222) && negb (code c =? 215))
  then ascii_of_nat (nat_of_ascii c + 32) else c.

(** [str.lower]. *)
Definition lower (s : string) : string :=
  string_of_list_ascii (map lower_char (list_ascii_of_string s)).

Fixpoint lstrip (cs : list ascii) : list ascii :=
  match cs with
  | c :: cs' => if is_space c then lstrip cs' else cs
  | [] => []
  end.

Definition strip (cs : list ascii) : list ascii := rev (lstrip (rev (lstrip cs))).

(** The underscore rule of numeric literals: an underscore is dropped when it
    stands between two digits and is an error anywhere else.  [prev] is the
    character before [cs], if any. *)
Fixpoint drop_underscores (prev : option ascii) (cs : list ascii) : option (list ascii) :=
  match cs with
  | [] => if decide (prev = Some "_"%char) then None else Some []
  | c :: cs' =>
      if decide (c = "_"%char) then
        match prev with
        | Some p => if is_digit p then drop_underscores (Some c) cs' else None
        | None => None
        end
      else if bool_decide (prev = Some "_"%char) && negb (is_digit c) then None
      else (c ::.) <$> drop_underscores (Some c) cs'
  end.

(** What [float] and [int] do first to a [str] that is not ASCII: a code
    point below 127 stays, the spaces U+0085 and U+00A0 become a space, and
    at any other code point the text is cut and ends in a question mark (no
    code point from 127 to 255 is a decimal digit). *)
Fixpoint to_ascii_digits_and_spaces (cs : list ascii) : list ascii :=
  match cs with
  | [] => []
  | c :: cs' =>
      if code c <? 127 then c :: to_ascii_digits_and_spaces cs'
      else if (code c =? 133) || (code c =? 160) then " "%char :: to_ascii_digits_and_spaces cs'
      else ["?"%char]
  end.

Definition is_ascii_text (cs : list ascii) : bool := forallb (fun c => code c <? 128) cs.

(** The longest prefix of decimal digits and what follows it. *)
Fixpoint span_digits (cs : list ascii) : list ascii * list ascii :=
  match cs with
  | c :: cs' =>
      if is_digit c then let '(ds, rest) := span_digits cs' in (c :: ds, rest)
      else ([], cs)
  | [] => ([], [])
  end.

(** The number a digit string denotes, most significant digit first. *)
Definition digits_value (ds : list ascii) : Z :=
  fold_left (fun acc d => 10 * acc + (code d - 48)) ds 0.

Definition read_sign (cs : list ascii) : bool * list ascii :=
  match cs with
  | "-"%char :: cs' => (true, cs')
  | "+"%char :: cs' => (false, cs')
  | _ => (false, cs)
  end.

(** The exponent part [e[+-]digits] when [cs] is exactly that; [Some 0] when
    [cs] is empty; [None] for anything else. *)
Definition read_exponent (cs : list ascii) : option Z :=
  match cs with
  | [] => Some 0
  | c :: cs' =>
      if decide (lower_char c = "e"%char) then
        let '(neg, cs'') := read_sign cs' in
        let '(ds, rest) := span_digits cs'' in
        match ds, rest with
        | _ :: _, [] => Some (if neg : bool then - digits_value ds else digits_value ds)
        | _, _ => None
        end
      else None
  end.

(** binary64. *)
Definition prec : Z := 53.
Definition emax : Z := 1024.

(** The binary64 value nearest to [(-1)^neg * n * 10^k], ties to even; too
    large a magnitude gives an infinity, too small a zero. *)
Definition decimal_to_float (neg : bool) (n k : Z) : spec_float :=
  match n with
  | Zpos p =>
      if 0 <=? k then
        match Zpos p * 10 ^ k with
        | Zpos m => binary_round prec emax neg m 0
        | _ => S754_zero neg
        end
      else
        match 10 ^ (- k) with
        | Zpos d => SFdiv prec emax (S754_finite neg p 0) (S754_finite false d 0)
        | _ => S754_zero neg
        end
  | _ => S754_zero neg
  end.

(** [float(value)] for a [str]: surrounding white space is dropped, then an
    optional sign and [inf], [infinity], [nan] or a decimal literal with
    optional fraction and exponent must fill the whole string; anything else
    is a [ValueError]. *)
Definition py_float (value : string) : Res spec_float :=
  let bad := Raised (Exc ValueError ("could not convert string to float: " +:+ value)) in
  let cs := list_ascii_of_string value in
  let cs := if is_ascii_text cs then cs else to_ascii_digits_and_spaces cs in
  match drop_underscores None (strip cs) with
  | None => bad
  | Some cs =>
      let '(neg, body) := read_sign cs in
      let word := string_of_list_ascii (map lower_char body) in
      if decide (word = "inf" \/ word = "infinity") then Returned (S754_infinity neg)
      else if decide (word = "nan") then Returned S754_nan
      else
        let '(int_part, rest) := span_digits body in
        let '(frac_part, rest) :=
          match rest with
          | "."%char :: rest' => span_digits rest'
          | _ => ([], rest)
          end in
        let digits := (int_part ++ frac_part)%list in
        match digits, read_exponent rest with
        | _ :: _, Some e =>
            Returned (decimal_to_float neg (digits_value digits)
                                       (e - Z.of_nat (length frac_part)))
        | _, _ => bad
        end
  end.

(** [int(x)] for a [float]: truncation towards zero; an infinity is an
    [OverflowError], a NaN a [ValueError]. *)
Definition py_int (x : spec_float) : Res Z :=
  match x with
  | S754_zero _ => Returned 0
  | S754_finite s m e =>
      let magnitude := if 0 <=? e then Zpos m * 2 ^ e else Zpos m / 2 ^ (- e) in
      Returned (if s then - magnitude else magnitude)
  | S754_infinity _ => Raised (Exc OverflowError "cannot convert float infinity to integer")
  | S754_nan => Raised (Exc ValueError "cannot convert float NaN to integer")
  end.

(** ** SchemaNormalizer (schema.py) *)

(** [except (ValueError, TypeError): handler]. *)
Definition except_value_or_type {A} (body : Res A) (handler : Res A) : Res A :=
  match body with
  | Returned a => Returned a
  | Raised e =>
      match exc_class e with
      | ValueError | TypeError => handler
      | _ => Raised e
      end
  end.

(** [d[key] = value] on a [dict]: an existing key keeps its place. *)
Fixpoint dict_set (key : string) (value : Value) (d : NormRow) : NormRow :=
  match d with
  | [] => [(key, value)]
  | (k, v) :: d' =>
      if decide (k = key) then (k, value) :: d'
      else (k, v) :: dict_set key value d'
  end.

(** [list(d.keys())]. *)
Definition keys (d : NormRow) : list string := fst <$> d.

(** [d.get(key)]. *)
Fixpoint dict_get (key : string) (d : NormRow) : option Value :=
  match d with
  | [] => None
  | (k, v) :: d' => if decide (k = key) then Some v else dict_get key d'
  end.

(** Truth value of a [str]. *)
Definition truthy (value : string) : bool := negb (bool_decide (value = "")).

(** [_cast_value].  [value] is a cell: a [str] or [None]. *)
Definition _cast_value (value : option string) (target_type column_name : string) : Res Value :=
  match value with
  | None => Returned VNone
  | Some value =>
      if decide (value = "") then Returned VNone
      else
        except_value_or_type
          (if decide (target_type = "STRING") then Returned (VStr value)
           else if decide (target_type = "INTEGER") then
             if truthy value then x ← py_float value; n ← py_int x; mret (VInt n)
             else Returned VNone
           else if decide (target_type = "FLOAT") then
             if truthy value then x ← py_float value; mret (VFloat x)
             else Returned VNone
           else if decide (target_type = "BOOLEAN") then
             if truthy value
             then Returned (VBool (bool_decide (lower value ∈ ["true"; "1"; "yes"; "y"])))
             else Returned VNone
           else if decide (target_type = "DATE") then
             if truthy value then Returned (VStr value) else Returned VNone
           else if decide (target_type = "TIMESTAMP") then
             if truthy value then Returned (VStr value) else Returned VNone
           else Returned (VStr value))
          (Returned VNone)
  end.

Section Normalizer.
Context (E : Env) (schema0 : list SchemaField).

(** The loop over [self.schema] that fills one [normalized_row]. *)
Fixpoint cast_fields (fields : list SchemaField) (row : RawRow) (normalized_row : NormRow)
    : Res NormRow :=
  match fields with
  | [] => Returned normalized_row
  | field :: fields' =>
      let col_name := name field in
      let raw_value := default (Some "") (row !! col_name) in
      v ← _cast_value raw_value (type field) col_name;
      cast_fields fields' row (dict_set col_name v normalized_row)
  end.

(** The loop over [data]. *)
Fixpoint normalize_rows (data : list RawRow) (source_file : Path) (checksum0 : string)
    (normalized_data : list NormRow) : M (list NormRow) :=
  match data with
  | [] => mret normalized_data
  | row :: data' =>
      normalized_row ← lift (cast_fields schema0 row []);
      let normalized_row := dict_set "source_file" (VStr (path_str source_file)) normalized_row in
      let normalized_row := dict_set "checksum" (VStr checksum0) normalized_row in
      now ← read_clock E;
      let normalized_row := dict_set "ingest_ts" (VStr (isoformat E now)) normalized_row in
      normalize_rows data' source_file checksum0 (normalized_data ++ [normalized_row])%list
  end.

(** [normalize]. *)
Definition normalize (data : list RawRow) (source_file : Path) (checksum0 : string)
    : M (list NormRow) :=
  match data with
  | [] => mret []
  | _ => normalize_rows data source_file checksum0 []
  end.
End Normalizer.

(** ** Shell-style patterns ([fnmatch.fnmatch] on a POSIX system, where
       [os.path.normcase] is the identity) *)

(** What [fnmatch.translate] turns a pattern into, piece by piece.  A
    character class is kept as its chunks: every character of a chunk is a
    member, and the last character of a chunk with the first of the next one
    bounds a range. *)
Inductive Tok : Set :=
| TStar                                  (* [*]: any run of characters *)
| TAny                                   (* [?]: any one character *)
| TLit (c : ascii)
| TClass (negated : bool) (chunks : list (list ascii))
| TNever.                                (* the empty class: no character *)

(** The text up to the first ["]"] and the text after it. *)
Fixpoint split_close (cs : list ascii) : option (list ascii * list ascii) :=
  match cs with
  | [] => None
  | c :: cs' =>
      if decide (c = "]"%char) then Some ([], cs')
      else '(stuff, rest) ← split_close cs'; Some (c :: stuff, rest)
  end.

(** After a ["["]: the body of the class and what follows its closing
    bracket.  A leading ["!"], and a ["]"] right after the opening, do not
    close the class. *)
Definition class_body (cs : list ascii) : option (list ascii * list ascii) :=
  let '(bang, cs1) :=
    match cs with
    | "!"%char :: cs' => (["!"%char], cs')
    | _ => ([], cs)
    end in
  let '(bracket, cs2) :=
    match cs1 with
    | "]"%char :: cs' => (["]"%char], cs')
    | _ => ([], cs1)
    end in
  '(stuff, rest) ← split_close cs2;
  Some ((bang ++ bracket ++ stuff)%list, rest).

(** Position of the first ["-"] at index [skip] or later. *)
Fixpoint find_hyphen (skip : nat) (cs : list ascii) : option nat :=
  match cs with
  | [] => None
  | c :: cs' =>
      match skip with
      | O => if decide (c = "-"%char) then Some O else S <$> find_hyphen O cs'
      | S skip' => S <$> find_hyphen skip' cs'
      end
  end.

(** Cut the body at the hyphens that stand for ranges.  Each cut removes at
    least one character, so [length stuff] is fuel enough. *)
Fixpoint cut_chunks (fuel skip : nat) (stuff : list ascii) : list (list ascii) :=
  match fuel with
  | O => [stuff]
  | S fuel' =>
      match find_hyphen skip stuff with
      | None => [stuff]
      | Some h => take h stuff :: cut_chunks fuel' 2 (drop (S h) stuff)
      end
  end.

(** [if chunk: chunks.append(chunk) else: chunks[-1] += '-']. *)
Fixpoint close_chunks (chunks : list (list ascii)) : list (list ascii) :=
  match chunks with
  | [c; []] => [(c ++ ["-"%char])%list]
  | c :: chunks' => c :: close_chunks chunks'
  | [] => []
  end.

Definition last_code (cs : list ascii) : Z := code (List.last cs "000"%char).
Definition head_code (cs : list ascii) : Z := code (List.hd "000"%char cs).

(** Ranges whose lower bound is above the upper one are dropped, from the
    right. *)
Fixpoint remove_empty_ranges (chunks : list (list ascii)) : list (list ascii) :=
  match chunks with
  | [] => []
  | c :: chunks' =>
      match remove_empty_ranges chunks' with
      | [] => [c]
      | d :: rest =>
          if head_code d <? last_code c then (removelast c ++ tail d)%list :: rest
          else c :: d :: rest
      end
  end.

Definition class_tok (stuff : list ascii) : Tok :=
  let chunks :=
    if bool_decide ("-"%char ∈ stuff) then
      let skip := match stuff with "!"%char :: _ => 2%nat | _ => 1%nat end in
      remove_empty_ranges (close_chunks (cut_chunks (length stuff) skip stuff))
    else [stuff] in
  match chunks with
  | [] | [[]] => TNever
  | [["!"%char]] => TAny
  | ("!"%char :: c) :: rest => TClass true (c :: rest)
  | _ => TClass false chunks
  end.

(** [fnmatch.translate].  Each step consumes a character, so the length of
    the pattern is fuel enough. *)
Fixpoint translate_from (fuel : nat) (pat : list ascii) : list Tok :=
  match fuel, pat with
  | S fuel', c :: pat' =>
      if decide (c = "*"%char) then TStar :: translate_from fuel' pat'
      else if decide (c = "?"%char) then TAny :: translate_from fuel' pat'
      else if decide (c = "["%char) then
        match class_body pat' with
        | None => TLit c :: translate_from fuel' pat'
        | Some (stuff, rest) => class_tok stuff :: translate_from fuel' rest
        end
      else TLit c :: translate_from fuel' pat'
  | _, _ => []
  end.

Definition translate (pat : string) : list Tok :=
  let cs := list_ascii_of_string pat in translate_from (length cs) cs.

Fixpoint in_ranges (c : ascii) (chunks : list (list ascii)) : bool :=
  match chunks with
  | lo :: ((hi :: _) as chunks') =>
      (match lo, hi with
       | _ :: _, _ :: _ => (last_code lo <=? code c) && (code c <=? head_code hi)
       | _, _ => false
       end) || in_ranges c chunks'
  | _ => false
  end.

Definition tok_matches (t : Tok) (c : ascii) : bool :=
  match t with
  | TStar | TAny => true
  | TLit c' => bool_decide (c = c')
  | TClass negated chunks =>
      xorb negated (bool_decide (c ∈ concat chunks) || in_ranges c chunks)
  | TNever => false
  end.

(** Whether the whole of [s] matches the translated pattern. *)
Fixpoint match_toks (toks : list Tok) (s : list ascii) : bool :=
  match toks with
  | [] => match s with [] => true | _ => false end
  | TStar :: toks' =>
      (fix star (s : list ascii) : bool :=
         match_toks toks' s ||
         match s with
         | [] => false
         | _ :: s' => star s'
         end) s
  | t :: toks' =>
      match s with
      | c :: s' => tok_matches t c && match_toks toks' s'
      | [] => false
      end
  end.

Definition fnmatch (name0 pat : string) : bool :=
  match_toks (translate pat) (list_ascii_of_string name0).

(** ** FileDiscoverer (discovery.py) *)

(** The order of [Path] objects: the lists of parts are compared, part by
    part, each part as a [str]. *)
Fixpoint parts_compare (p q : Path) : comparison :=
  match p, q with
  | [], [] => Eq
  | [], _ :: _ => Lt
  | _ :: _, [] => Gt
  | a :: p', b :: q' =>
      match String.compare a b with
      | Eq => parts_compare p' q'
      | c => c
      end
  end.

Definition path_le (p q : Path) : Prop := parts_compare p q <> Gt.

#[global] Instance path_le_dec p q : Decision (path_le p q).
Proof. unfold path_le. apply _. Defined.

(** [sorted(paths)]. *)
Definition sorted (paths : list Path) : list Path := merge_sort path_le paths.

Definition default_ignore_patterns : list string := ["~$*"; ".~*"; "*.tmp"; "*.temp"].

(** [ignore_patterns or ["~$*", ".~*", "*.tmp", "*.temp"]] of [__init__]:
    an empty list counts as none given. *)
Definition init_ignore_patterns (ignore_patterns0 : list string) : list string :=
  match ignore_patterns0 with
  | [] => default_ignore_patterns
  | _ => ignore_patterns0
  end.

(** [_should_ignore]. *)
Definition _should_ignore (ignore_patterns0 : list string) (file_path : Path) : bool :=
  let file_name0 := path_name file_path in
  existsb (fun pattern => fnmatch file_name0 pattern) ignore_patterns0.

(** The loop of [discover] over the hits of the glob, each with the answer
    of its [is_file()]. *)
Fixpoint collect (ignore_patterns0 : list string) (hits : list (Path * bool)) (discovered : list Path)
    : list Path :=
  match hits with
  | [] => discovered
  | (file_path, is_file) :: hits' =>
      if negb is_file then collect ignore_patterns0 hits' discovered
      else if _should_ignore ignore_patterns0 file_path then collect ignore_patterns0 hits' discovered
      else collect ignore_patterns0 hits' (discovered ++ [file_path])%list
  end.

Section Discoverer.
Context (E : Env).

(** [discover], for a discoverer built with [pattern] and
    [ignore_patterns0]. *)
Definition discover (pattern : string) (ignore_patterns0 : list string) : M (list Path) :=
  root_there ← (fun w => (Returned (root_exists E (ticks w)), tick w));
  if negb root_there then mret []
  else
    hits ← call (EvGlob pattern) (fun t => glob E t pattern);
    mret (sorted (collect (init_ignore_patterns ignore_patterns0) hits [])).
End Discoverer.

(** ** IngestionPipeline (pipeline.py) *)

(** [str.rfind(".")]. *)
Fixpoint rfind_dot (cs : list ascii) : option nat :=
  match cs with
  | [] => None
  | c :: cs' =>
      match rfind_dot cs' with
      | Some i => Some (S i)
      | None => if decide (c = "."%char) then Some O else None
      end
  end.

(** [PurePath.stem]: the name without its last suffix. *)
Definition path_stem (p : Path) : string :=
  let name0 := path_name p in
  let cs := list_ascii_of_string name0 in
  match rfind_dot cs with
  | Some i =>
      if bool_decide (0 < i < length cs - 1)%nat then string_of_list_ascii (take i cs)
      else name0
  | None => name0
  end.

(** The three counters of [run]. *)
Record Counts : Set := mkCounts {
  processed_count : nat;
  skipped_count : nat;
  failed_count : nat;
}.

Section Pipeline.
Context (E : Env) (config : IngestionConfig).

(** [_process_file]. *)
Definition _process_file (file_path : Path) : M bool :=
  checksum0 ← calculate E (checksum_algorithm config) file_path;
  go ← should_process E file_path checksum0;
  if negb go then mret false
  else if dry_run config then mret true
  else
    try_except
      (data ← parse E file_path;
       data_normalized ← normalize E (schema config) data file_path checksum0;
       serialized_path ← serialize E (output_format config) data_normalized (path_stem file_path);
       gcs_uri ← upload E (gcs_bucket config) (gcs_prefix config) serialized_path;
       job_id ← load_from_gcs E gcs_uri;
       _ ← record_processing E (path_name file_path) checksum0 SUCCESS None
             (Some (Z.of_nat (length data_normalized)));
       mret true)
      (fun e =>
         _ ← record_processing E (path_name file_path) checksum0 FAILED (Some (exc_msg e)) None;
         raise e).

(** The loop of [run] over the discovered files. *)
Fixpoint process_files (files : list Path) (counts : Counts) : M Counts :=
  match files with
  | [] => mret counts
  | file_path :: files' =>
      counts' ← try_except
        (processed ← _process_file file_path;
         if processed : bool
         then mret {| processed_count := S (processed_count counts);
                      skipped_count := skipped_count counts;
                      failed_count := failed_count counts |}
         else mret {| processed_count := processed_count counts;
                      skipped_count := S (skipped_count counts);
                      failed_count := failed_count counts |})
        (fun _ =>
           mret {| processed_count := processed_count counts;
                   skipped_count := skipped_count counts;
                   failed_count := S (failed_count counts) |});
      process_files files' counts'
  end.

(** [run]: the exit code. *)
Definition run : M Z :=
  try_except
    (_ ← ensure_registry_exists E;
     there ← table_exists E;
     _ ← (if negb there then create_table E else mret tt);
     files ← discover E (file_pattern config) (ignore_patterns config);
     match files with
     | [] => mret 0
     | _ =>
         counts ← process_files files
           {| processed_count := 0; skipped_count := 0; failed_count := 0 |};
         mret (if bool_decide (0 < failed_count counts)%nat then 1 else 0)
     end)
    (fun _ => mret 2).
End Pipeline.

(** * Notions used in the statements *)

(** The records handed to [insert_rows_json] along a trace. *)
Definition inserts (tr : list Event) : list FileRecord :=
  omap (fun ev => match ev with EvInsert r => Some r | _ => None end) tr.

(** [r] is a most recent SUCCESS record of [file_name0] in [table]. *)
Definition latest_success (table : list FileRecord) (file_name0 : string) (r : FileRecord) : Prop :=
  r ∈ table /\ selected file_name0 r /\
  forall r', r' ∈ table -> selected file_name0 r' -> processed_at r' <= processed_at r.

(** The answer of [get_checksum] in a world. *)
Definition stored_checksum (E : Env) (file_name0 : string) (w : World) : option string :=
  match query_fault E (ticks w) file_name0 with
  | Some _ => None
  | None => head (select_checksum (registry w) file_name0)
  end.

(** The row [record_processing] builds in world [w]. *)
Definition new_row (E : Env) (file_name0 checksum0 : string) (status0 : Status)
    (error_message0 : option string) (row_count0 : option Z) (w : World) : FileRecord :=
  {| file_name := file_name0;
     checksum := checksum0;
     processed_at := utcnow E (ticks w);
     status := status0;
     error_message := error_message0;
     row_count := row_count0 |}.

(** The world [record_processing] leaves. *)
Definition recorded (E : Env) (row : FileRecord) (w : World) : World :=
  {| registry :=
       match insert_rows_json E (S (ticks w)) row with
       | InsertOk => registry w ++ [row]
       | _ => registry w
       end;
     trace := trace w ++ [EvInsert row];
     ticks := S (S (ticks w)) |}.

(** The stages inside the [try] of [_process_file], parse to load, giving
    the normalised rows. *)
Definition stages (E : Env) (config : IngestionConfig) (file_path : Path) (checksum0 : string)
    : M (list NormRow) :=
  data ← parse E file_path;
  data_normalized ← normalize E (schema config) data file_path checksum0;
  serialized_path ← serialize E (output_format config) data_normalized (path_stem file_path);
  gcs_uri ← upload E (gcs_bucket config) (gcs_prefix config) serialized_path;
  job_id ← load_from_gcs E gcs_uri;
  mret data_normalized.

(** What [run] does before its loop. *)
Definition setup_and_discover (E : Env) (config : IngestionConfig) : M (list Path) :=
  _ ← ensure_registry_exists E;
  there ← table_exists E;
  _ ← (if negb there then create_table E else mret ());
  discover E (file_pattern config) (ignore_patterns config).

Definition no_counts : Counts :=
  {| processed_count := 0; skipped_count := 0; failed_count := 0 |}.

Definition count_processed (c : Counts) : Counts :=
  {| processed_count := S (processed_count c);
     skipped_count := skipped_count c;
     failed_count := failed_count c |}.

Definition count_skipped (c : Counts) : Counts :=
  {| processed_count := processed_count c;
     skipped_count := S (skipped_count c);
     failed_count := failed_count c |}.

Definition count_failed (c : Counts) : Counts :=
  {| processed_count := processed_count c;
     skipped_count := skipped_count c;
     failed_count := S (failed_count c) |}.

(** Code that neither changes the registry table nor asks for an insert. *)
Definition leaves_registry {A} (m : M A) : Prop :=
  forall w, registry (m w).2 = registry w /\ inserts (trace (m w).2) = inserts (trace w).

(** The three audit keys, in the order [normalize] sets them. *)
Definition audit_keys : list string := ["source_file"; "checksum"; "ingest_ts"].

(** The keys of a [dict] after [k] is set in it. *)
Definition add_key (acc : list string) (k : string) : list string :=
  if decide (k ∈ acc) then acc else acc ++ [k].

(** The order in which keys first enter a [dict] when they are set one after
    the other. *)
Definition key_order (ks : list string) : list string := fold_left add_key ks [].

(** The cell [normalize] reads for a field: [row.get(col_name, "")]. *)
Definition cell (row : RawRow) (field : SchemaField) : option string :=
  default (Some "") (row !! name field).

(** The cell of an INTEGER field reads as an infinite [float]. *)
Definition infinite_integer_cell (row : RawRow) (field : SchemaField) : Prop :=
  type field = "INTEGER" /\
  exists value s, cell row field = Some value /\ py_float value = Returned (S754_infinity s).

(** A row as [normalize] leaves it: the keys in the order they were first
    set, and the three audit values. *)
Definition finished_row (E : Env) (schema0 : list SchemaField) (source_file : Path)
    (checksum0 : string) (r : NormRow) : Prop :=
  keys r = key_order ((name <$> schema0) ++ audit_keys) /\
  (exists t, dict_get "ingest_ts" r = Some (VStr (isoformat E t))) /\
  dict_get "checksum" r = Some (VStr checksum0) /\
  dict_get "source_file" r = Some (VStr (path_str source_file)).

(** ** A concrete world to run the code in *)

(** An environment in which the clock advances with every consultation, the
    registry answers unless [query_down], inserts end as [insert_outcome], the
    glob finds [hits], the files named in [unreadable] cannot be opened and
    the sheet of a file holds [rows_of] its name. *)
Definition demo_env (hits : list (Path * bool)) (unreadable : list string) (query_down : bool)
    (insert_outcome : InsertOutcome) (rows_of : string -> list RawRow) : Env :=
  {| utcnow := fun t => Z.of_nat t;
     isoformat := fun t => "T+" +:+ pretty t;
     registry_get_table := fun _ => Returned ();
     registry_create_table := fun _ => Returned ();
     query_fault := fun _ _ =>
       if query_down then Some (Exc OtherError "503 Service Unavailable") else None;
     insert_rows_json := fun _ _ => insert_outcome;
     target_get_table := fun _ => Returned ();
     target_create_table := fun _ => Returned ();
     root_exists := fun _ => true;
     glob := fun _ _ => Returned hits;
     read_chunks := fun _ p =>
       if bool_decide (path_name p ∈ unreadable)
       then Raised (Exc OSError "[Errno 13] Permission denied")
       else Returned [path_name p];
     hexdigest := fun algorithm content => algorithm +:+ ":" +:+ content;
     xlsx_rows := fun _ p => Returned (rows_of (path_name p));
     write_rows := fun _ format _ stem => Returned ["/"; "tmp"; stem +:+ "." +:+ format];
     upload_from_filename := fun _ _ => Returned ();
     load_job := fun _ _ => Returned "job_1" |}.

Definition demo_schema : list SchemaField :=
  [ {| name := "A"; type := "INTEGER"; mode := "NULLABLE" |};
    {| name := "B"; type := "BOOLEAN"; mode := "NULLABLE" |} ].

Definition demo_config (dry : bool) : IngestionConfig :=
  {| input_directory := ["in"];
     gcs_bucket := "bucket";
     gcs_prefix := "mot-ingestion";
     schema := demo_schema;
     file_pattern := "**/*.xlsx";
     output_format := "parquet";
     checksum_algorithm := "sha256";
     dry_run := dry;
     ignore_patterns := default_ignore_patterns |}.

(** The sheet of [b.xlsx] has the text [inf] in its INTEGER column. *)
Definition demo_rows (file_name0 : string) : list RawRow :=
  if decide (file_name0 = "b.xlsx") then [ {[ "A" := Some "inf"; "B" := Some "no" ]} ]
  else [ {[ "A" := Some "3.7"; "B" := Some "yes" ]}; {[ "A" := Some ""; "B" := Some "" ]} ].

(** What the glob finds: three workbooks, a lock file and a directory. *)
Definition demo_hits : list (Path * bool) :=
  [ (["in"; "c.xlsx"], true); (["in"; "~$a.xlsx"], true); (["in"; "a.xlsx"], true);
    (["in"; "old.xlsx"], false); (["in"; "b.xlsx"], true) ].

Definition empty_world : World := {| registry := []; trace := []; ticks := 0 |}.

(** A hit of the glob that [discover] keeps: a file no ignore pattern
    matches. *)
Definition kept (ignored : list string) (hit : Path * bool) : bool :=
  hit.2 && negb (_should_ignore ignored hit.1).

(** The environment in which nothing outside the package fails. *)
Definition calm_env : Env := demo_env demo_hits [] false InsertOk demo_rows.


(** The world after a SUCCESS record of [a.xlsx] was written to an empty
    registry. *)
Definition after_success : World :=
  (record_processing calm_env "a.xlsx" "sha256:a.xlsx" SUCCESS None (Some 2) empty_world).2.

(** A glob that finds a workbook and the lock file of the program editing
    it. *)
Definition report_hits : list (Path * bool) :=
  [ (["in"; "~$report.xlsx"], true); (["in"; "report.xlsx"], true) ].

(** Code after which the count of consultations has not gone down. *)
Definition advances {A} (m : M A) : Prop := forall w, (ticks w <= ticks (m w).2)%nat.

(** A record as the data model wants it: a message exactly when the status is
    FAILED, a row count exactly when it is SUCCESS. *)
Definition well_formed (r : FileRecord) : Prop :=
  match status r with
  | SUCCESS => error_message r = None /\ is_Some (row_count r)
  | FAILED => is_Some (error_message r) /\ row_count r = None
  end.

(** Code that only adds events to the trace, each of them satisfying [P]. *)
Definition emits {A} (P : Event -> Prop) (m : M A) : Prop :=
  forall w, exists added, trace (m w).2 = trace w ++ added /\ Forall P added.

(** An event that moves no data: neither a parse, nor a serialisation, an
    upload, a load job or a registry insert. *)
Definition moves_no_data (ev : Event) : Prop :=
  match ev with
  | EvParse _ | EvSerialize _ _ | EvUpload _ | EvLoad _ | EvInsert _ => False
  | _ => True
  end.

(** The calm environment before its first run: the registry table is not
    there yet. *)
Definition first_run_env : Env :=
  {| utcnow := utcnow calm_env;
     isoformat := isoformat calm_env;
     registry_get_table := fun _ => Raised (Exc OtherError "404 Not found: Table file_registry");
     registry_create_table := registry_create_table calm_env;
     query_fault := query_fault calm_env;
     insert_rows_json := insert_rows_json calm_env;
     target_get_table := target_get_table calm_env;
     target_create_table := target_create_table calm_env;
     root_exists := root_exists calm_env;
     glob := glob calm_env;
     read_chunks := read_chunks calm_env;
     hexdigest := hexdigest calm_env;
     xlsx_rows := xlsx_rows calm_env;
     write_rows := write_rows calm_env;
     upload_from_filename := upload_from_filename calm_env;
     load_job := load_job calm_env |}.

(** [E] with a spreadsheet library that raises [sheet_fault] and a load job
    that raises [load_fault], when given. *)
Definition with_faults (E : Env) (sheet_fault load_fault : option exn) : Env :=
  {| utcnow := utcnow E;
     isoformat := isoformat E;
     registry_get_table := registry_get_table E;
     registry_create_table := registry_create_table E;
     query_fault := query_fault E;
     insert_rows_json := insert_rows_json E;
     target_get_table := target_get_table E;
     target_create_table := target_create_table E;
     root_exists := root_exists E;
     glob := glob E;
     read_chunks := read_chunks E;
     hexdigest := hexdigest E;
     xlsx_rows := fun t p =>
       match sheet_fault with
       | Some e => Raised e
       | None => xlsx_rows E t p
       end;
     write_rows := write_rows E;
     upload_from_filename := upload_from_filename E;
     load_job := fun t uri =>
       match load_fault with
       | Some e => Raised e
       | None => load_job E t uri
       end |}.

(** The row [normalize] makes of one input row: the casts of the schema's
    cells, then the three audit values, the last with the reading [t] of the
    clock. *)
Definition row_made_of (E : Env) (schema0 : list SchemaField) (source_file : Path)
    (checksum0 : string) (row : RawRow) (r : NormRow) : Prop :=
  exists r0 t,
    cast_fields schema0 row [] = Returned r0 /\
    r = dict_set "ingest_ts" (VStr (isoformat E t))
          (dict_set "checksum" (VStr checksum0)
             (dict_set "source_file" (VStr (path_str source_file)) r0)).

(** A value that a column of the given type can hold. *)
Definition fits (target_type : string) (v : Value) : Prop :=
  match v with
  | VNone => True
  | VStr _ => target_type <> "INTEGER" /\ target_type <> "FLOAT" /\ target_type <> "BOOLEAN"
  | VInt _ => target_type = "INTEGER"
  | VFloat _ => target_type = "FLOAT"
  | VBool _ => target_type = "BOOLEAN"
  end.

(** [BigQueryLoader._convert_schema]: the fields of the schema, then the
    three audit fields. *)
Definition _convert_schema (schema0 : list SchemaField) : list SchemaField :=
  ((fun field => {| name := name field; type := type field; mode := mode field |}) <$> schema0)
  ++ [ {| name := "source_file"; type := "STRING"; mode := "NULLABLE" |};
       {| name := "checksum"; type := "STRING"; mode := "NULLABLE" |};
       {| name := "ingest_ts"; type := "TIMESTAMP"; mode := "NULLABLE" |} ].


(** What [run] does before the discovery: the two tables. *)
Definition setup (E : Env) : M unit :=
  _ ← ensure_registry_exists E;
  there ← table_exists E;
  if negb there then create_table E else mret ().

(** An event of the setup: a table fetched or created. *)
Definition provisions (ev : Event) : Prop :=
  match ev with
  | EvRegistryGetTable | EvRegistryCreateTable | EvTableExists | EvCreateTable => True
  | _ => False
  end.

(** [E] with the input directory and the target table as given: the directory
    there or not, the table fetched and created or neither. *)
Definition with_site (E : Env) (root_there table_there : bool) : Env :=
  {| utcnow := utcnow E;
     isoformat := isoformat E;
     registry_get_table := registry_get_table E;
     registry_create_table := registry_create_table E;
     query_fault := query_fault E;
     insert_rows_json := insert_rows_json E;
     target_get_table := fun t =>
       if table_there then target_get_table E t
       else Raised (Exc OtherError "404 Not found: Table mot");
     target_create_table := fun t =>
       if table_there then target_create_table E t
       else Raised (Exc OtherError "403 Permission denied");
     root_exists := fun t => root_there && root_exists E t;
     glob := glob E;
     read_chunks := read_chunks E;
     hexdigest := hexdigest E;
     xlsx_rows := xlsx_rows E;
     write_rows := write_rows E;
     upload_from_filename := upload_from_filename E;
     load_job := load_job E |}.


(** ** The loop of [run], file by file *)

(** What [_process_file] gives for each file of the loop in turn, every call
    starting in the world the one before left: the outcomes, and the world
    after the last call. *)
Fixpoint attempts (E : Env) (config : IngestionConfig) (files : list Path) (w : World)
    : list (Res bool) * World :=
  match files with
  | [] => ([], w)
  | file_path :: files' =>
      let (outcome, w') := _process_file E config file_path w in
      let (outcomes, w'') := attempts E config files' w' in
      (outcome :: outcomes, w'')
  end.

(** The three outcomes of [_process_file]: [True], [False], an exception. *)
Definition is_processed (outcome : Res bool) : bool :=
  match outcome with Returned true => true | _ => false end.

Definition is_skipped (outcome : Res bool) : bool :=
  match outcome with Returned false => true | _ => false end.

Definition is_failed (outcome : Res bool) : bool :=
  match outcome with Raised _ => true | _ => false end.

(** How many of the outcomes are of one kind. *)
Definition tally (kind : Res bool -> bool) (outcomes : list (Res bool)) : nat :=
  length (List.filter kind outcomes).

(** ** Worlds and environments for the registry's decision *)

(** The calm environment with a registry that does not answer queries. *)
Definition query_down_env : Env := demo_env demo_hits [] true InsertOk demo_rows.

(** A registry with one SUCCESS record of [a.xlsx], stamped [at]. *)
Definition world_with_success (checksum0 : string) (at_ : Z) : World :=
  {| registry := [ {| file_name := "a.xlsx";
                      checksum := checksum0;
                      processed_at := at_;
                      status := SUCCESS;
                      error_message := None;
                      row_count := Some 2 |} ];
     trace := [];
     ticks := 0 |}.

(** The world after a SUCCESS record of [a.xlsx] with the checksum
    [sha256:a.xlsx] was written over an older one stamped [at]. *)
Definition after_newer_success (at_ : Z) : World :=
  (record_processing calm_env "a.xlsx" "sha256:a.xlsx" SUCCESS None (Some 2)
     (world_with_success "sha256:old" at_)).2.

(** ** The order of paths, in words *)

(** The order of [Path] objects: the first part in which two paths differ
    decides, the parts compared as strings, and a path comes before the paths
    it is the beginning of. *)
Inductive parts_before : Path -> Path -> Prop :=
  | before_longer (q : Path) : parts_before [] q
  | before_by_part (a b : string) (p q : Path) :
      String.compare a b = Lt -> parts_before (a :: p) (b :: q)
  | before_by_rest (a : string) (p q : Path) :
      parts_before p q -> parts_before (a :: p) (a :: q).

(** A glob that finds a workbook beside a directory of the same stem. *)
Definition nested_hits : list (Path * bool) :=
  [ (["in"; "a.xlsx"], true); (["in"; "a"; "b.xlsx"], true) ].
(** * Properties *)

(** ** Running monadic code *)

Lemma bind_run {A B} (m : M A) (f : A -> M B) (w : World) :
  (m ≫= f) w =
  match m w with
  | (Returned a, w') => f a w'
  | (Raised e, w') => (Raised e, w')
  end.
Proof. reflexivity. Qed.

Lemma try_except_run {A} (body : M A) (handler : exn -> M A) (w : World) :
  try_except body handler w =
  match body w with
  | (Returned a, w') => (Returned a, w')
  | (Raised e, w') => handler e w'
  end.
Proof. reflexivity. Qed.

(** Re-raising in the handler is the same as having no handler. *)
Lemma try_except_reraise {A} (body : M A) :
  forall w, try_except body (fun e => raise e) w = body w.
Proof. intros w. unfold try_except, raise. by destruct (body w) as [[a|e] w']. Qed.

Lemma inserts_app tr1 tr2 : inserts (tr1 ++ tr2) = (inserts tr1 ++ inserts tr2)%list.
Proof. unfold inserts. apply omap_app. Qed.

(** ** The registry query *)

#[global] Instance newer_first_total : Total newer_first.
Proof. intros a b. unfold newer_first. lia. Qed.

#[global] Instance newer_first_trans : Transitive newer_first.
Proof. intros a b c. unfold newer_first. lia. Qed.

Lemma select_checksum_nil table file_name0 :
  select_checksum table file_name0 = [] <-> forall r, r ∈ table -> ~ selected file_name0 r.
Proof.
  unfold select_checksum.
  pose proof (merge_sort_Permutation newer_first (filter (selected file_name0) table)) as HP.
  destruct (merge_sort newer_first (filter (selected file_name0) table)) as [|r0 s] eqn:Hs.
  - split; [|done]. intros _ r Hin Hsel.
    assert (r ∈ filter (selected file_name0) table) as Hf by (apply list_elem_of_filter; done).
    rewrite <- HP in Hf. by apply elem_of_nil in Hf.
  - split; [done|]. intros Hnone. exfalso.
    assert (r0 ∈ filter (selected file_name0) table) as Hf by (rewrite <- HP; left).
    apply list_elem_of_filter in Hf as [Hsel Hin]. by apply (Hnone r0).
Qed.

Lemma select_checksum_cons table file_name0 c rest :
  select_checksum table file_name0 = c :: rest ->
  rest = [] /\ exists r, latest_success table file_name0 r /\ checksum r = c.
Proof.
  unfold select_checksum.
  pose proof (merge_sort_Permutation newer_first (filter (selected file_name0) table)) as HP.
  pose proof (StronglySorted_merge_sort newer_first (filter (selected file_name0) table)) as HS.
  destruct (merge_sort newer_first (filter (selected file_name0) table)) as [|r0 s] eqn:Hs;
    [done|].
  simpl. rewrite take_0. intros [= <- <-]. split; [done|].
  exists r0. split; [|done].
  assert (r0 ∈ filter (selected file_name0) table) as Hf by (rewrite <- HP; left).
  apply list_elem_of_filter in Hf as [Hsel Hin].
  repeat split; try done; try apply Hsel.
  intros r' Hin' Hsel'.
  assert (r' ∈ r0 :: s) as Hr'.
  { rewrite HP. apply list_elem_of_filter. done. }
  apply StronglySorted_inv in HS as [_ Hall].
  apply elem_of_cons in Hr' as [->|Hr']; [lia|].
  rewrite Forall_forall in Hall. by apply Hall.
Qed.

(** ** [get_checksum], [record_processing] and [should_process], run *)

Lemma get_checksum_run E file_name0 w :
  get_checksum E file_name0 w =
  (Returned (stored_checksum E file_name0 w), emit (EvQuery file_name0) w).
Proof.
  unfold get_checksum, stored_checksum. rewrite try_except_run, bind_run.
  unfold client_query.
  destruct (query_fault E (ticks w) file_name0) as [e|]; [done|].
  by destruct (select_checksum (registry w) file_name0).
Qed.

Lemma should_process_run E file_path checksum0 w :
  should_process E file_path checksum0 w =
  (Returned (match stored_checksum E (path_name file_path) w with
             | None => true
             | Some stored => bool_decide (stored <> checksum0)
             end),
   emit (EvQuery (path_name file_path)) w).
Proof.
  unfold should_process. rewrite bind_run, get_checksum_run.
  destruct (stored_checksum E (path_name file_path) w) as [stored|]; [|done].
  by destruct (decide (stored <> checksum0)); [rewrite bool_decide_true|rewrite bool_decide_false].
Qed.

Lemma record_processing_run E file_name0 checksum0 status0 error_message0 row_count0 w :
  record_processing E file_name0 checksum0 status0 error_message0 row_count0 w =
  (Returned (),
   recorded E (new_row E file_name0 checksum0 status0 error_message0 row_count0 w) w).
Proof.
  unfold record_processing, recorded, new_row, read_clock.
  rewrite bind_run. simpl. rewrite try_except_run, bind_run. unfold client_insert. simpl.
  by destruct (insert_rows_json E (S (ticks w)) _).
Qed.

(** ** The registry decides (state.py) *)

(** C5. [get_checksum] never raises.  It returns the checksum of a most
    recent SUCCESS record of the name, by [processed_at]; it returns [None]
    exactly when the query fails or the name has no SUCCESS record; and after
    a failed query [should_process] answers [True], so the file is processed
    again rather than skipped. *)
Theorem get_checksum_latest_success_or_absent (E : Env) (file_name0 : string) (w : World) :
  exists answer,
    get_checksum E file_name0 w = (Returned answer, emit (EvQuery file_name0) w) /\
    (answer = None <->
       query_fault E (ticks w) file_name0 <> None \/
       forall r, r ∈ registry w -> ~ selected file_name0 r) /\
    (forall c, answer = Some c ->
       exists r, latest_success (registry w) file_name0 r /\ checksum r = c) /\
    (query_fault E (ticks w) file_name0 <> None ->
       forall file_path current, path_name file_path = file_name0 ->
         should_process E file_path current w = (Returned true, emit (EvQuery file_name0) w)).
Proof.
  exists (stored_checksum E file_name0 w). split; [apply get_checksum_run|].
  unfold stored_checksum.
  destruct (query_fault E (ticks w) file_name0) as [e|] eqn:Hq.
  - split; [|split].
    + split; [by left|done].
    + done.
    + intros _ file_path current <-. rewrite should_process_run.
      unfold stored_checksum. by rewrite Hq.
  - split; [|split]; [| |done].
    + rewrite <- select_checksum_nil.
      destruct (select_checksum (registry w) file_name0); simpl; split; try done.
      * by right.
      * by intros [?|?].
    + intros c Hc.
      destruct (select_checksum (registry w) file_name0) as [|c' rest] eqn:Hsel; [done|].
      simpl in Hc. injection Hc as ->.
      by apply select_checksum_cons in Hsel as [_ ?].
Qed.

(** C1, as the code has it.  When the registry answers the query,
    [should_process] returns [True] exactly when the name has no SUCCESS record
    or the stored checksum, that of a most recent SUCCESS record by
    [processed_at], differs from the current one; and when the world is the
    one [record_processing] left after inserting a SUCCESS record with the
    current checksum and a timestamp later than every earlier SUCCESS record
    of the name, it returns [False]. *)
Theorem should_process_iff_new_or_changed (E : Env) (file_path : Path) (current : string)
    (w : World) :
  let file_name0 := path_name file_path in
  query_fault E (ticks w) file_name0 = None ->
  exists b,
    should_process E file_path current w = (Returned b, emit (EvQuery file_name0) w) /\
    (b = true <->
       (forall r, r ∈ registry w -> ~ selected file_name0 r) \/
       (exists stored, fst (get_checksum E file_name0 w) = Returned (Some stored) /\
                       stored <> current)) /\
    (forall stored, fst (get_checksum E file_name0 w) = Returned (Some stored) ->
       exists r, latest_success (registry w) file_name0 r /\ checksum r = stored) /\
    (forall w0 row_count0,
       record_processing E file_name0 current SUCCESS None row_count0 w0 = (Returned (), w) ->
       insert_rows_json E (S (ticks w0))
         (new_row E file_name0 current SUCCESS None row_count0 w0) = InsertOk ->
       (forall r, r ∈ registry w0 -> selected file_name0 r ->
                  processed_at r < utcnow E (ticks w0)) ->
       b = false).
Proof.
  cbv zeta. rewrite should_process_run. generalize (path_name file_path).
  intros file_name0 Hq. eexists. split; [reflexivity|].
  rewrite get_checksum_run. simpl.
  unfold stored_checksum. rewrite Hq.
  destruct (select_checksum (registry w) file_name0) as [|c rest] eqn:Hsel; simpl.
  - pose proof (proj1 (select_checksum_nil _ _) Hsel) as Hnone. split; [|split].
    + split; [by left|done].
    + done.
    + intros w0 rc Hrec Hins _. exfalso.
      rewrite record_processing_run in Hrec. injection Hrec as <-.
      unfold recorded in Hnone. simpl in Hnone. rewrite Hins in Hnone.
      apply (Hnone (new_row E file_name0 current SUCCESS None rc w0)).
      * apply elem_of_app. right. left.
      * done.
  - apply select_checksum_cons in Hsel as [-> (r & Hlatest & Hc)]. split; [|split].
    + rewrite bool_decide_eq_true. split.
      * intros Hne. right. by exists c.
      * intros [Hnone|(stored & [= <-] & Hne)]; [|done].
        destruct Hlatest as (Hin & Hs & _). by destruct (Hnone r Hin).
    + intros stored [= <-]. by exists r.
    + intros w0 rc Hrec Hins Hnewest.
      rewrite record_processing_run in Hrec. injection Hrec as <-.
      apply bool_decide_eq_false. intros Hne. apply Hne. clear Hne.
      destruct Hlatest as (Hin & Hs & Hmax).
      unfold recorded in Hin, Hmax. simpl in Hin, Hmax. rewrite Hins in Hin, Hmax.
      set (row := new_row E file_name0 current SUCCESS None rc w0) in *.
      apply elem_of_app in Hin as [Hin|Hin].
      * pose proof (Hnewest r Hin Hs) as Hlt.
        assert (processed_at row <= processed_at r) as Hle.
        { apply Hmax; [apply elem_of_app; right; left|done]. }
        simpl in Hle. lia.
      * apply list_elem_of_singleton in Hin. by rewrite <- Hc, Hin.
Qed.

(** ** Code that leaves the registry alone *)

Lemma leaves_ret {A} (a : A) : leaves_registry (mret a : M A).
Proof. done. Qed.

Lemma leaves_raise {A} (e : exn) : leaves_registry (raise e : M A).
Proof. done. Qed.

Lemma leaves_lift {A} (r : Res A) : leaves_registry (lift r).
Proof. done. Qed.

Lemma leaves_read_clock E : leaves_registry (read_clock E).
Proof. done. Qed.

Lemma leaves_bind {A B} (m : M A) (f : A -> M B) :
  leaves_registry m -> (forall a, leaves_registry (f a)) -> leaves_registry (m ≫= f).
Proof.
  intros Hm Hf w. rewrite bind_run. specialize (Hm w).
  destruct (m w) as [[a|e] w1]; simpl in *; [|done].
  destruct (Hf a w1) as [-> ->]. done.
Qed.

Lemma leaves_try_except {A} (body : M A) (handler : exn -> M A) :
  leaves_registry body -> (forall e, leaves_registry (handler e)) ->
  leaves_registry (try_except body handler).
Proof.
  intros Hm Hf w. rewrite try_except_run. specialize (Hm w).
  destruct (body w) as [[a|e] w1]; simpl in *; [done|].
  destruct (Hf e w1) as [-> ->]. done.
Qed.

Lemma leaves_call {A} (ev : Event) (oracle : nat -> Res A) :
  (forall r, ev <> EvInsert r) -> leaves_registry (call ev oracle).
Proof.
  intros Hev w. unfold call, emit. simpl. split; [done|].
  rewrite inserts_app. destruct ev; simpl; try apply app_nil_r. by destruct (Hev r).
Qed.

Create HintDb leaves.
#[global] Hint Resolve leaves_ret leaves_raise leaves_lift leaves_read_clock : leaves.

Ltac leaves_step :=
  match goal with
  | |- leaves_registry (mbind _ _) => apply leaves_bind; [|intros ?]
  | |- leaves_registry (try_except _ _) => apply leaves_try_except; [|intros ?]
  | |- leaves_registry (call _ _) => apply leaves_call; discriminate
  | |- leaves_registry (if ?b then _ else _) => destruct b
  | |- leaves_registry (match ?x with _ => _ end) => destruct x
  | |- leaves_registry _ => solve [auto with leaves]
  end.

Lemma leaves_get_checksum E file_name0 : leaves_registry (get_checksum E file_name0).
Proof.
  intros w. rewrite get_checksum_run. unfold emit. simpl. split; [done|].
  rewrite inserts_app. apply app_nil_r.
Qed.

Lemma leaves_should_process E file_path checksum0 :
  leaves_registry (should_process E file_path checksum0).
Proof.
  intros w. rewrite should_process_run. unfold emit. simpl. split; [done|].
  rewrite inserts_app. apply app_nil_r.
Qed.

Lemma leaves_calculate E algorithm file_path : leaves_registry (calculate E algorithm file_path).
Proof. unfold calculate. case_decide; repeat leaves_step. Qed.

Lemma leaves_parse E file_path : leaves_registry (parse E file_path).
Proof. unfold parse. repeat leaves_step. Qed.

Lemma leaves_normalize_rows E schema0 data source_file checksum0 acc :
  leaves_registry (normalize_rows E schema0 data source_file checksum0 acc).
Proof.
  revert acc. induction data as [|row data IH]; intros acc; simpl.
  - apply leaves_ret.
  - repeat leaves_step.
Qed.

Lemma leaves_normalize E schema0 data source_file checksum0 :
  leaves_registry (normalize E schema0 data source_file checksum0).
Proof.
  unfold normalize. destruct data; [apply leaves_ret|apply leaves_normalize_rows].
Qed.

Lemma leaves_serialize E format data file_stem :
  leaves_registry (serialize E format data file_stem).
Proof. unfold serialize. repeat leaves_step. Qed.

Lemma leaves_upload E bucket prefix local_path :
  leaves_registry (upload E bucket prefix local_path).
Proof. unfold upload. repeat leaves_step. Qed.

Lemma leaves_load_from_gcs E gcs_uri : leaves_registry (load_from_gcs E gcs_uri).
Proof. unfold load_from_gcs. repeat leaves_step. Qed.

#[global] Hint Resolve leaves_get_checksum leaves_should_process leaves_calculate leaves_parse
  leaves_normalize leaves_serialize leaves_upload leaves_load_from_gcs : leaves.

Lemma leaves_stages E config file_path checksum0 :
  leaves_registry (stages E config file_path checksum0).
Proof. unfold stages. repeat leaves_step. Qed.

Lemma leaves_ensure_registry_exists E : leaves_registry (ensure_registry_exists E).
Proof. unfold ensure_registry_exists. repeat leaves_step. Qed.

Lemma leaves_table_exists E : leaves_registry (table_exists E).
Proof. unfold table_exists. repeat leaves_step. Qed.

Lemma leaves_create_table E : leaves_registry (create_table E).
Proof.
  unfold create_table. apply leaves_bind; [apply leaves_table_exists|].
  intros []; repeat leaves_step.
Qed.

Lemma leaves_discover E pattern ignore_patterns0 :
  leaves_registry (discover E pattern ignore_patterns0).
Proof. unfold discover. apply leaves_bind; [done|]. intros ?. repeat leaves_step. Qed.

#[global] Hint Resolve leaves_ensure_registry_exists leaves_table_exists leaves_create_table
  leaves_discover : leaves.

Lemma leaves_setup_and_discover E config : leaves_registry (setup_and_discover E config).
Proof. unfold setup_and_discover. repeat leaves_step. Qed.

(** ** The orchestrator, run *)

Lemma calculate_run E algorithm file_path w :
  calculate E algorithm file_path w =
  if decide (algorithm = "md5" \/ algorithm = "sha256") then
    (match read_chunks E (ticks w) file_path with
     | Returned chunks => Returned (hexdigest E algorithm (fold_left String.append chunks ""))
     | Raised e => Raised e
     end,
     emit (EvReadFile file_path) w)
  else (Raised (Exc ValueError ("Unsupported algorithm: " +:+ algorithm)), w).
Proof.
  unfold calculate. case_decide; [|done].
  rewrite try_except_reraise, bind_run. unfold call.
  by destruct (read_chunks E (ticks w) file_path).
Qed.

(** [_process_file], stage by stage. *)
Lemma _process_file_run E config file_path w :
  _process_file E config file_path w =
  match calculate E (checksum_algorithm config) file_path w with
  | (Raised e, w1) => (Raised e, w1)
  | (Returned checksum0, w1) =>
      match should_process E file_path checksum0 w1 with
      | (Raised e, w2) => (Raised e, w2)
      | (Returned false, w2) => (Returned false, w2)
      | (Returned true, w2) =>
          if dry_run config then (Returned true, w2)
          else
            match stages E config file_path checksum0 w2 with
            | (Returned data_normalized, w3) =>
                (Returned true,
                 recorded E (new_row E (path_name file_path) checksum0 SUCCESS None
                               (Some (Z.of_nat (length data_normalized))) w3) w3)
            | (Raised e, w3) =>
                (Raised e,
                 recorded E (new_row E (path_name file_path) checksum0 FAILED
                               (Some (exc_msg e)) None w3) w3)
            end
      end
  end.
Proof.
  unfold _process_file. rewrite bind_run.
  destruct (calculate E (checksum_algorithm config) file_path w) as [[checksum0|e] w1]; [|done].
  rewrite bind_run.
  destruct (should_process E file_path checksum0 w1) as [[[|]|e] w2]; simpl; try done.
  destruct (dry_run config); [done|].
  rewrite try_except_run. unfold stages. rewrite !bind_run.
  destruct (parse E file_path w2) as [[data|e] wa];
    [|by rewrite bind_run, record_processing_run].
  rewrite !bind_run.
  destruct (normalize E (schema config) data file_path checksum0 wa) as [[dn|e] wb];
    [|by rewrite bind_run, record_processing_run].
  rewrite !bind_run.
  destruct (serialize E (output_format config) dn (path_stem file_path) wb) as [[sp|e] wc];
    [|by rewrite bind_run, record_processing_run].
  rewrite !bind_run.
  destruct (upload E (gcs_bucket config) (gcs_prefix config) sp wc) as [[uri|e] wd];
    [|by rewrite bind_run, record_processing_run].
  rewrite !bind_run.
  destruct (load_from_gcs E uri wd) as [[job|e] we];
    [|by rewrite bind_run, record_processing_run].
  by rewrite bind_run, record_processing_run.
Qed.

(** One turn of the loop of [run]. *)
Lemma process_files_cons E config file_path files counts w :
  process_files E config (file_path :: files) counts w =
  match _process_file E config file_path w with
  | (Returned true, w') => process_files E config files (count_processed counts) w'
  | (Returned false, w') => process_files E config files (count_skipped counts) w'
  | (Raised _, w') => process_files E config files (count_failed counts) w'
  end.
Proof.
  simpl. rewrite bind_run, try_except_run, bind_run.
  by destruct (_process_file E config file_path w) as [[[|]|e] w'].
Qed.

(** The loop never raises, and every file is counted once. *)
Lemma process_files_returns E config files counts w :
  exists counts' w',
    process_files E config files counts w = (Returned counts', w') /\
    (processed_count counts' + skipped_count counts' + failed_count counts' =
     processed_count counts + skipped_count counts + failed_count counts + length files)%nat /\
    (failed_count counts <= failed_count counts')%nat.
Proof.
  revert counts w. induction files as [|file_path files IH]; intros counts w.
  - exists counts, w. simpl. split; [done|]. lia.
  - rewrite process_files_cons.
    destruct (_process_file E config file_path w) as [[[|]|e] w'];
      [destruct (IH (count_processed counts) w') as (c & w'' & -> & Hsum & Hf)
      |destruct (IH (count_skipped counts) w') as (c & w'' & -> & Hsum & Hf)
      |destruct (IH (count_failed counts) w') as (c & w'' & -> & Hsum & Hf)];
      exists c, w''; simpl in *; (split; [done|lia]).
Qed.

(** [run], phase by phase. *)
Lemma run_run E config w :
  run E config w =
  match setup_and_discover E config w with
  | (Raised _, w0) => (Returned 2, w0)
  | (Returned [], w0) => (Returned 0, w0)
  | (Returned files, w0) =>
      match process_files E config files no_counts w0 with
      | (Returned counts, w') =>
          (Returned (if bool_decide (0 < failed_count counts)%nat then 1 else 0), w')
      | (Raised _, w') => (Returned 2, w')
      end
  end.
Proof.
  unfold run, setup_and_discover. rewrite try_except_run, !bind_run.
  destruct (ensure_registry_exists E w) as [[[]|e] w1]; [|done].
  rewrite !bind_run.
  destruct (table_exists E w1) as [[there|e] w2]; [|done].
  rewrite !bind_run.
  destruct ((if negb there then create_table E else mret ()) w2) as [[[]|e] w3]; [|done].
  rewrite bind_run.
  destruct (discover E (file_pattern config) (ignore_patterns config) w3) as [[files|e] w4];
    [|done].
  destruct files as [|file_path files]; [done|].
  rewrite bind_run. fold no_counts.
  by destruct (process_files E config (file_path :: files) no_counts w4) as [[counts|e] w5].
Qed.






(** [run] always returns. *)
Lemma run_returns E config w : exists code w', run E config w = (Returned code, w').
Proof.
  rewrite run_run.
  destruct (setup_and_discover E config w) as [[[|file_path files]|e] w0]; [by eexists _, _| |by eexists _, _].
  destruct (process_files_returns E config (file_path :: files) no_counts w0)
    as (counts & w' & -> & _).
  by eexists _, _.
Qed.

(** Failures of the setup: the registry table can neither be found nor
    created, or the glob raises. *)
Lemma registry_provisioning_failure E config w e1 e2 :
  registry_get_table E (ticks w) = Raised e1 ->
  registry_create_table E (S (ticks w)) = Raised e2 ->
  exists w0, setup_and_discover E config w = (Raised e2, w0) /\
             run E config w = (Returned 2, w0).
Proof.
  intros Hget Hcreate. eexists. rewrite run_run.
  unfold setup_and_discover, ensure_registry_exists.
  rewrite bind_run, try_except_run. unfold call. rewrite Hget. simpl. rewrite Hcreate.
  done.
Qed.

Lemma discovery_failure E config w w0 e :
  setup_and_discover E config w = (Raised e, w0) -> run E config w = (Returned 2, w0).
Proof. intros H. by rewrite run_run, H. Qed.

(** ** Failure isolation and exit codes (pipeline.py) *)


(** The loop, said with the outcomes of [_process_file]: each file is
    attempted once, in turn, and counted by its outcome. *)
Lemma process_files_attempts E config files counts w :
  process_files E config files counts w =
  (Returned
     {| processed_count :=
          processed_count counts + tally is_processed (attempts E config files w).1;
        skipped_count := skipped_count counts + tally is_skipped (attempts E config files w).1;
        failed_count := failed_count counts + tally is_failed (attempts E config files w).1 |},
   (attempts E config files w).2).
Proof.
  assert (forall a b c a' b' c' (w1 : World),
            a = a' -> b = b' -> c = c' ->
            (Returned {| processed_count := a; skipped_count := b; failed_count := c |}, w1)
            = (Returned {| processed_count := a'; skipped_count := b'; failed_count := c' |}, w1))
    as Heq by (by intros; subst).
  revert counts w. induction files as [|file_path files IH]; intros counts w.
  - destruct counts as [a b c]. unfold tally. simpl. apply Heq; lia.
  - rewrite process_files_cons. simpl attempts.
    destruct (_process_file E config file_path w) as [[[|]|e] w']; rewrite IH;
      destruct (attempts E config files w') as [outcomes w'']; unfold tally; simpl;
      apply Heq; lia.
Qed.

Lemma attempts_length E config files w :
  length (attempts E config files w).1 = length files.
Proof.
  revert w. induction files as [|file_path files IH]; intros w; [done|].
  simpl. destruct (_process_file E config file_path w) as [outcome w'].
  specialize (IH w'). destruct (attempts E config files w') as [outcomes w'']. simpl in *.
  by rewrite IH.
Qed.

Lemma tally_sum outcomes :
  (tally is_processed outcomes + tally is_skipped outcomes + tally is_failed outcomes
   = length outcomes)%nat.
Proof.
  unfold tally. induction outcomes as [|[[|]|e] outcomes IH]; simpl; lia.
Qed.

Lemma tally_failed_pos outcomes :
  (0 < tally is_failed outcomes)%nat <-> exists e, Raised e ∈ outcomes.
Proof.
  unfold tally. induction outcomes as [|outcome outcomes IH].
  - simpl. split; [lia|]. by intros [e ?%elem_of_nil].
  - destruct outcome as [b|e]; simpl.
    + rewrite IH. split; intros [e He]; exists e.
      * by right.
      * by apply elem_of_cons in He as [?|?].
    + split; [|lia]. intros _. exists e. by left.
Qed.

(** C3. [run] always returns an exit code: 2 when the setup or the discovery
    raises; otherwise [_process_file] is called once for every discovered
    file, in turn, each file is counted as processed, skipped or failed as
    its call returned [True], returned [False] or raised, and the code is 1
    exactly when some call raised and 0 exactly when none did.  With no file
    discovered the code is 0, nothing is counted and the world is the one the
    discovery left. *)
Theorem run_exit_code (E : Env) (config : IngestionConfig) (w : World) :
  exists code w',
    run E config w = (Returned code, w') /\
    match setup_and_discover E config w with
    | (Raised _, w0) => code = 2 /\ w' = w0
    | (Returned files, w0) =>
        let outcomes := (attempts E config files w0).1 in
        exists counts,
          process_files E config files no_counts w0 = (Returned counts, w') /\
          w' = (attempts E config files w0).2 /\
          length outcomes = length files /\
          processed_count counts = tally is_processed outcomes /\
          skipped_count counts = tally is_skipped outcomes /\
          failed_count counts = tally is_failed outcomes /\
          (processed_count counts + skipped_count counts + failed_count counts
             = length files)%nat /\
          (code = 0 <-> forall e, Raised e ∉ outcomes) /\
          (code = 1 <-> exists e, Raised e ∈ outcomes) /\
          (failed_count counts = 0%nat -> code = 0) /\
          ((0 < failed_count counts)%nat -> code = 1) /\
          (files = [] -> counts = no_counts /\ w' = w0 /\ code = 0)
    end.
Proof.
  rewrite run_run.
  destruct (setup_and_discover E config w) as [[files|e] w0]; [|by exists 2, w0].
  cbv zeta.
  pose proof (process_files_attempts E config files no_counts w0) as Hloop.
  pose proof (attempts_length E config files w0) as Hlen.
  pose proof (tally_sum (attempts E config files w0).1) as Hsum.
  pose proof (tally_failed_pos (attempts E config files w0).1) as Hpos.
  destruct (attempts E config files w0) as [outcomes w_end] eqn:Hatt.
  simpl in Hloop, Hlen, Hsum, Hpos |- *.
  set (code := if bool_decide (0 < tally is_failed outcomes)%nat then 1 else 0).
  assert ((code = 0 <-> forall e, Raised e ∉ outcomes) /\
          (code = 1 <-> exists e, Raised e ∈ outcomes) /\
          (tally is_failed outcomes = 0%nat -> code = 0) /\
          ((0 < tally is_failed outcomes)%nat -> code = 1)) as (H0 & H1 & Hz & Hp).
  { unfold code. case_bool_decide as Hf.
    - split; [|split; [|split]]; try done; try lia.
      + split; [done|]. intros Hnone. apply Hpos in Hf as [e He]. by destruct (Hnone e).
      + split; [|done]. intros _. by apply Hpos.
    - split; [|split; [|split]]; try done; try lia.
      + split; [|done]. intros _ e He. apply Hf, Hpos. by exists e.
      + split; [done|]. intros He. by apply Hpos in He. }
  assert (run_result :
    match files with
    | [] => (Returned 0, w0)
    | _ :: _ =>
        match process_files E config files no_counts w0 with
        | (Returned counts, w') =>
            (Returned (if bool_decide (0 < failed_count counts)%nat then 1 else 0), w')
        | (Raised e, w') => (Returned 2, w')
        end
    end = (Returned code, w_end) :> Res Z * World).
  { destruct files as [|file_path files].
    - simpl in Hatt. injection Hatt as <- <-. done.
    - by rewrite Hloop. }
  exists code, w_end. split.
  { rewrite <- run_result. by destruct files. }
  eexists. split; [exact Hloop|]. simpl.
  repeat (split; [done || lia|]).
  intros ->. simpl in Hatt. injection Hatt as <- <-. done.
Qed.



(** C6. [record_processing] never raises, whatever [insert_rows_json] does:
    it returns [None], having asked for the insert of one row, which is in the
    table afterwards exactly when the insert reported no error.  So the loop of
    [run] and [run] itself always return. *)
Theorem record_processing_never_raises (E : Env) (file_name0 checksum0 : string)
    (status0 : Status) (error_message0 : option string) (row_count0 : option Z) (w : World) :
  let row := new_row E file_name0 checksum0 status0 error_message0 row_count0 w in
  (exists w',
     record_processing E file_name0 checksum0 status0 error_message0 row_count0 w
       = (Returned (), w') /\
     trace w' = trace w ++ [EvInsert row] /\
     registry w' = match insert_rows_json E (S (ticks w)) row with
                   | InsertOk => registry w ++ [row]
                   | InsertErrors _ | InsertRaises _ => registry w
                   end) /\
  (forall config files counts, exists counts' w',
     process_files E config files counts w = (Returned counts', w')) /\
  (forall config, exists code w', run E config w = (Returned code, w')).
Proof.
  intros row. split; [|split].
  - eexists. split; [apply record_processing_run|]. split; [done|].
    unfold recorded. simpl. fold row.
    by destruct (insert_rows_json E (S (ticks w)) row).
  - intros config files counts.
    destruct (process_files_returns E config files counts w) as (c & w' & H & _).
    by exists c, w'.
  - intros config. apply run_returns.
Qed.

(** ** Normalisation (schema.py) *)

Lemma keys_cons k v (d : NormRow) : keys ((k, v) :: d) = k :: keys d.
Proof. reflexivity. Qed.

Lemma keys_dict_set key value d :
  keys (dict_set key value d) = if decide (key ∈ keys d) then keys d else keys d ++ [key].
Proof.
  induction d as [|[k v] d IH]; [done|].
  simpl dict_set. destruct (decide (k = key)) as [->|Hne]; rewrite !keys_cons.
  - by rewrite decide_True by left.
  - rewrite IH. destruct (decide (key ∈ keys d)) as [Hin|Hnin].
    + by rewrite decide_True by (by right).
    + rewrite decide_False; [done|]. intros [?|?]%elem_of_cons; congruence.
Qed.

Lemma dict_get_set key value d : dict_get key (dict_set key value d) = Some value.
Proof.
  induction d as [|[k v] d IH]; simpl.
  - by rewrite decide_True.
  - destruct (decide (k = key)) as [->|Hne]; simpl.
    + by rewrite decide_True.
    + by rewrite decide_False.
Qed.

Lemma dict_get_set_ne key key' value d :
  key <> key' -> dict_get key' (dict_set key value d) = dict_get key' d.
Proof.
  intros Hne. induction d as [|[k v] d IH]; simpl.
  - by rewrite decide_False.
  - destruct (decide (k = key)) as [->|Hk]; simpl.
    + by rewrite !decide_False.
    + by rewrite IH.
Qed.

Lemma fold_add_key_elem ks acc k : k ∈ fold_left add_key ks acc <-> k ∈ acc \/ k ∈ ks.
Proof.
  revert acc. induction ks as [|k0 ks IH]; intros acc; simpl.
  - rewrite elem_of_nil. tauto.
  - rewrite IH. unfold add_key. rewrite elem_of_cons.
    destruct (decide (k0 ∈ acc)) as [Hin|Hnin].
    + split; [tauto|]. intros [?|[->|?]]; tauto.
    + rewrite elem_of_app, list_elem_of_singleton. tauto.
Qed.

Lemma fold_add_key_NoDup ks acc :
  NoDup (acc ++ ks) -> fold_left add_key ks acc = acc ++ ks.
Proof.
  revert acc. induction ks as [|k0 ks IH]; intros acc Hnd; simpl.
  - by rewrite app_nil_r.
  - unfold add_key. rewrite decide_False.
    + rewrite IH; rewrite <- app_assoc; done.
    + apply NoDup_app in Hnd as (_ & Hdisj & _). intros Hin. apply (Hdisj k0 Hin). left.
Qed.

Lemma key_order_elem ks k : k ∈ key_order ks <-> k ∈ ks.
Proof.
  unfold key_order. rewrite fold_add_key_elem, elem_of_nil. tauto.
Qed.

Lemma key_order_NoDup ks : NoDup ks -> key_order ks = ks.
Proof. intros Hnd. unfold key_order. by rewrite fold_add_key_NoDup. Qed.

(** [float] raises nothing but [ValueError]. *)
Lemma py_float_raises_ValueError value e :
  py_float value = Raised e -> exc_class e = ValueError.
Proof.
  unfold py_float.
  destruct (drop_underscores _ _) as [cs|]; [|by intros [= <-]].
  destruct (read_sign cs) as [neg body].
  repeat case_decide; try done.
  destruct (span_digits body) as [int_part rest].
  destruct (match rest with
            | "."%char :: rest' => span_digits rest'
            | _ => ([], rest)
            end) as [frac_part rest'].
  destruct (int_part ++ frac_part) as [|d ds]; [by intros [= <-]|].
  destruct (read_exponent rest') as [x|]; [done|by intros [= <-]].
Qed.

(** [_cast_value], case by case. *)
Lemma _cast_value_cases value target_type column_name :
  _cast_value value target_type column_name =
  match value with
  | None => Returned VNone
  | Some v =>
      if decide (v = "") then Returned VNone
      else if decide (target_type = "STRING") then Returned (VStr v)
      else if decide (target_type = "INTEGER") then
        match py_float v with
        | Raised _ => Returned VNone
        | Returned S754_nan => Returned VNone
        | Returned (S754_infinity s) =>
            Raised (Exc OverflowError "cannot convert float infinity to integer")
        | Returned (S754_zero _) => Returned (VInt 0)
        | Returned (S754_finite s m e) =>
            Returned (VInt (if s then - (if 0 <=? e then Zpos m * 2 ^ e else Zpos m / 2 ^ (- e))
                            else (if 0 <=? e then Zpos m * 2 ^ e else Zpos m / 2 ^ (- e))))
        end
      else if decide (target_type = "FLOAT") then
        match py_float v with
        | Raised _ => Returned VNone
        | Returned x => Returned (VFloat x)
        end
      else if decide (target_type = "BOOLEAN") then
        Returned (VBool (bool_decide (lower v ∈ ["true"; "1"; "yes"; "y"])))
      else Returned (VStr v)
  end.
Proof.
  destruct value as [v|]; [|done]. unfold _cast_value.
  destruct (decide (v = "")) as [|Hne]; [done|].
  assert (truthy v = true) as Ht.
  { unfold truthy. by rewrite bool_decide_false. }
  rewrite Ht.
  repeat case_decide; try done.
  - destruct (py_float v) as [[| | |[] ? ?]|e] eqn:Hf; simpl; try done.
    by rewrite (py_float_raises_ValueError v e Hf).
  - destruct (py_float v) as [x|e] eqn:Hf; simpl; try done.
    by rewrite (py_float_raises_ValueError v e Hf).
Qed.

(** [_cast_value] raises exactly on an INTEGER cell that reads as an
    infinite [float]. *)
Lemma _cast_value_raises_iff row field :
  is_returned (_cast_value (cell row field) (type field) (name field)) = false <->
  infinite_integer_cell row field.
Proof.
  rewrite _cast_value_cases. unfold infinite_integer_cell.
  destruct (cell row field) as [v|] eqn:Hcell.
  2:{ simpl. split; [done|]. by intros (_ & v & s & ? & _). }
  destruct (decide (v = "")) as [->|Hne].
  { simpl. split; [done|]. intros (_ & v & s & [= <-] & Hinf). by vm_compute in Hinf. }
  destruct (decide (type field = "STRING")) as [Hs|Hs].
  { simpl. split; [done|]. intros (Ht & _). congruence. }
  destruct (decide (type field = "INTEGER")) as [Hi|Hi].
  - destruct (py_float v) as [[| | |]|] eqn:Hf; simpl; split; try done.
    + intros (_ & v' & s' & [= <-] & Hinf). congruence.
    + intros _. split; [done|]. eauto.
    + intros (_ & v' & s' & [= <-] & Hinf). congruence.
    + intros (_ & v' & s' & [= <-] & Hinf). congruence.
    + intros (_ & v' & s' & [= <-] & Hinf). congruence.
  - split; [|by intros (? & _)].
    repeat case_decide; try done; by destruct (py_float v).
Qed.

(** The keys one row gets from the loop over the schema. *)
Lemma cast_fields_keys fields row acc out :
  cast_fields fields row acc = Returned out ->
  keys out = fold_left add_key (name <$> fields) (keys acc).
Proof.
  revert acc. induction fields as [|field fields IH]; intros acc; simpl.
  - by intros [= <-].
  - destruct (_cast_value _ _ _) as [v|e]; [|done]. simpl.
    intros Hout. rewrite (IH _ Hout), keys_dict_set. done.
Qed.

Lemma cast_fields_returns fields row acc :
  (forall field, field ∈ fields -> ~ infinite_integer_cell row field) ->
  exists out, cast_fields fields row acc = Returned out.
Proof.
  revert acc. induction fields as [|field fields IH]; intros acc Hok; simpl.
  - by eexists.
  - fold (cell row field).
    destruct (_cast_value (cell row field) (type field) (name field)) as [v|e] eqn:Hv.
    + simpl. apply IH. intros f Hf. apply Hok. by right.
    + exfalso. apply (Hok field); [left|]. apply _cast_value_raises_iff. by rewrite Hv.
Qed.

Lemma normalize_rows_returns E schema0 data source_file checksum0 acc w :
  (forall row field, row ∈ data -> field ∈ schema0 -> ~ infinite_integer_cell row field) ->
  exists rows w',
    normalize_rows E schema0 data source_file checksum0 acc w = (Returned (acc ++ rows), w') /\
    length rows = length data /\
    Forall (finished_row E schema0 source_file checksum0) rows.
Proof.
  revert acc w. induction data as [|row data IH]; intros acc w Hok.
  - exists [], w. simpl. by rewrite app_nil_r.
  - simpl. rewrite bind_run. unfold lift.
    destruct (cast_fields_returns schema0 row [] (fun f Hf => Hok row f (list_elem_of_here _ _) Hf))
      as [r0 Hr0].
    rewrite Hr0. rewrite bind_run. unfold read_clock.
    set (r := dict_set "ingest_ts" _ _).
    destruct (IH (acc ++ [r]) (tick w)) as (rows & w' & Hrun & Hlen & Hall).
    { intros row' f Hrow'. apply Hok. by right. }
    exists (r :: rows), w'. split; [|split].
    + rewrite Hrun. by rewrite <- app_assoc.
    + simpl. by rewrite Hlen.
    + constructor; [|done]. unfold finished_row, r. split; [|split; [|split]].
      * rewrite !keys_dict_set, (cast_fields_keys _ _ _ _ Hr0).
        unfold key_order. rewrite fold_left_app. done.
      * eexists. apply dict_get_set.
      * rewrite dict_get_set_ne by done. apply dict_get_set.
      * rewrite !dict_get_set_ne by done. apply dict_get_set.
Qed.

(** X20.  On rows none of whose INTEGER cells reads as an infinite float,
    [normalize] returns one row for each input row, the empty list for no
    rows.  The keys of each output row are the names of the schema in the
    order of their first occurrence, followed by those of [source_file],
    [checksum], [ingest_ts] that are not already among them; they are the
    names of the schema followed by the three audit keys when these are all
    different.  No other key is in the row. *)
Theorem normalize_one_row_per_input_row (E : Env) (schema0 : list SchemaField)
    (data : list RawRow) (source_file : Path) (checksum0 : string) (w : World) :
  (forall row field, row ∈ data -> field ∈ schema0 -> ~ infinite_integer_cell row field) ->
  exists out w',
    normalize E schema0 data source_file checksum0 w = (Returned out, w') /\
    length out = length data /\
    (data = [] -> out = []) /\
    forall r, r ∈ out ->
      keys r = key_order ((name <$> schema0) ++ audit_keys) /\
      (NoDup ((name <$> schema0) ++ audit_keys) -> keys r = (name <$> schema0) ++ audit_keys) /\
      (forall k, k ∈ keys r <-> k ∈ (name <$> schema0) \/ k ∈ audit_keys).
Proof.
  intros Hok. unfold normalize. destruct data as [|row data].
  - exists [], w. split; [done|]. split; [done|]. split; [done|].
    by intros r ?%elem_of_nil.
  - destruct (normalize_rows_returns E schema0 (row :: data) source_file checksum0 [] w Hok)
      as (rows & w' & Hrun & Hlen & Hall).
    exists rows, w'. split; [done|]. split; [done|]. split; [done|].
    intros r Hr. rewrite Forall_forall in Hall. destruct (Hall r Hr) as (Hkeys & _).
    rewrite Hkeys. split; [done|]. split.
    + apply key_order_NoDup.
    + intros k. by rewrite key_order_elem, elem_of_app.
Qed.

(** C8, where the code departs from it.  The text [inf] in an INTEGER column
    is read by [float] as an infinity, [int] raises [OverflowError], the
    handler of [_cast_value] takes only [ValueError] and [TypeError], and the
    exception leaves [_cast_value] and [normalize]. *)
Theorem cast_value_overflow_escapes :
  _cast_value (Some "inf") "INTEGER" "A"
    = Raised (Exc OverflowError "cannot convert float infinity to integer") /\
  _cast_value (Some "1e999") "INTEGER" "A"
    = Raised (Exc OverflowError "cannot convert float infinity to integer") /\
  forall (E : Env) (source_file : Path) (checksum0 : string) (w : World),
    normalize E [ {| name := "A"; type := "INTEGER"; mode := "NULLABLE" |} ]
      [ {[ "A" := Some "inf" ]} ] source_file checksum0 w
    = (Raised (Exc OverflowError "cannot convert float infinity to integer"), w).
Proof. split; [|split]; by vm_compute. Qed.

(** ** The order of paths *)

Lemma ascii_compare_refl a : Ascii.compare a a = Eq.
Proof. apply N.compare_refl. Qed.

Lemma ascii_compare_lt_trans a b c :
  Ascii.compare a b = Lt -> Ascii.compare b c = Lt -> Ascii.compare a c = Lt.
Proof. unfold Ascii.compare. rewrite !N.compare_lt_iff. lia. Qed.

Lemma string_compare_refl s : String.compare s s = Eq.
Proof. induction s as [|a s IH]; simpl; [done|]. by rewrite ascii_compare_refl. Qed.

Lemma string_compare_lt_trans s1 s2 s3 :
  String.compare s1 s2 = Lt -> String.compare s2 s3 = Lt -> String.compare s1 s3 = Lt.
Proof.
  revert s2 s3. induction s1 as [|a s1 IH]; intros [|b s2] [|c s3]; simpl; try done.
  destruct (Ascii.compare a b) eqn:Hab; try done;
    destruct (Ascii.compare b c) eqn:Hbc; try done; intros H1 H2.
  - apply Ascii.compare_eq_iff in Hab as ->. apply Ascii.compare_eq_iff in Hbc as ->.
    rewrite ascii_compare_refl. by apply (IH s2).
  - apply Ascii.compare_eq_iff in Hab as ->. by rewrite Hbc.
  - apply Ascii.compare_eq_iff in Hbc as ->. by rewrite Hab.
  - by rewrite (ascii_compare_lt_trans a b c).
Qed.

Lemma parts_compare_refl p : parts_compare p p = Eq.
Proof. induction p as [|a p IH]; simpl; [done|]. by rewrite string_compare_refl. Qed.

Lemma parts_compare_antisym p q : parts_compare p q = CompOpp (parts_compare q p).
Proof.
  revert q. induction p as [|a p IH]; intros [|b q]; simpl; try done.
  rewrite (String.compare_antisym a b).
  destruct (String.compare b a); simpl; try done; apply IH.
Qed.

Lemma parts_compare_eq p q : parts_compare p q = Eq -> p = q.
Proof.
  revert q. induction p as [|a p IH]; intros [|b q]; simpl; try done.
  destruct (String.compare a b) eqn:Hab; try done.
  apply String.compare_eq_iff in Hab as ->. by intros ->%IH.
Qed.

Lemma parts_compare_lt_trans p q r :
  parts_compare p q = Lt -> parts_compare q r = Lt -> parts_compare p r = Lt.
Proof.
  revert q r. induction p as [|a p IH]; intros [|b q] [|c r]; simpl; try done.
  destruct (String.compare a b) eqn:Hab; try done;
    destruct (String.compare b c) eqn:Hbc; try done; intros H1 H2.
  - apply String.compare_eq_iff in Hab as ->. apply String.compare_eq_iff in Hbc as ->.
    rewrite string_compare_refl. by apply (IH q).
  - apply String.compare_eq_iff in Hab as ->. by rewrite Hbc.
  - apply String.compare_eq_iff in Hbc as ->. by rewrite Hab.
  - by rewrite (string_compare_lt_trans a b c).
Qed.

#[global] Instance path_le_total : Total path_le.
Proof.
  intros p q. unfold path_le. rewrite (parts_compare_antisym q p).
  destruct (parts_compare p q); simpl; [left|left|right]; done.
Qed.

#[global] Instance path_le_trans : Transitive path_le.
Proof.
  intros p q r. unfold path_le.
  destruct (parts_compare p q) eqn:Hpq; [|  |done].
  - by apply parts_compare_eq in Hpq as ->.
  - destruct (parts_compare q r) eqn:Hqr; [| |done]; intros _ _.
    + apply parts_compare_eq in Hqr as ->. by rewrite Hpq.
    + by rewrite (parts_compare_lt_trans p q r).
Qed.

#[global] Instance path_le_antisym : AntiSymm (=) path_le.
Proof.
  intros p q. unfold path_le. rewrite (parts_compare_antisym q p).
  destruct (parts_compare p q) eqn:Hpq; simpl; try done.
  intros _ _. by apply parts_compare_eq.
Qed.

(** The comparison of parts is the order said in words. *)
Lemma path_le_parts_before p q : path_le p q <-> parts_before p q.
Proof.
  unfold path_le. split.
  - revert q. induction p as [|a p IH]; intros q; [constructor|].
    destruct q as [|b q]; simpl; [done|].
    destruct (String.compare a b) eqn:Hab; [| |done].
    + apply String.compare_eq_iff in Hab as ->. intros H. apply before_by_rest. by apply IH.
    + intros _. by apply before_by_part.
  - induction 1 as [q|a b p q Hab|a p q _ IH]; simpl.
    + by destruct q.
    + by rewrite Hab.
    + by rewrite string_compare_refl.
Qed.

(** Two files of one directory are compared by their names. *)
Lemma parts_compare_same_directory dir a b :
  parts_compare (dir ++ [a]) (dir ++ [b]) = String.compare a b.
Proof.
  induction dir as [|d dir IH]; simpl.
  - by destruct (String.compare a b).
  - by rewrite string_compare_refl.
Qed.

Lemma StronglySorted_lookup_lt {A} (R : relation A) (l : list A) (i j : nat) (x y : A) :
  StronglySorted R l -> (i < j)%nat -> l !! i = Some x -> l !! j = Some y -> R x y.
Proof.
  intros Hsorted. revert i j. induction Hsorted as [|z l _ IH Hall]; intros i j Hlt Hi Hj.
  - done.
  - destruct j as [|j]; [lia|]. destruct i as [|i]; simpl in Hi, Hj.
    + injection Hi as <-. rewrite Forall_forall in Hall. apply Hall.
      by eapply list_elem_of_lookup_2.
    + apply (IH i j); [lia|done|done].
Qed.

Lemma StronglySorted_impl {A} (R1 R2 : relation A) (l : list A) :
  (forall x y, R1 x y -> R2 x y) -> StronglySorted R1 l -> StronglySorted R2 l.
Proof.
  intros Himpl. induction 1 as [|z l _ IH Hall]; constructor; [done|].
  eapply Forall_impl; [exact Hall|]. intros y. apply Himpl.
Qed.

(** ** Matching the default ignore patterns *)

Lemma match_toks_star toks s :
  match_toks (TStar :: toks) s =
  match_toks toks s || match s with [] => false | _ :: s' => match_toks (TStar :: toks) s' end.
Proof. by destruct s. Qed.

Lemma match_toks_lits lits s : match_toks (TLit <$> lits) s = true <-> s = lits.
Proof.
  revert s. induction lits as [|c lits IH]; intros [|d s]; simpl; try done.
  rewrite andb_true_iff, bool_decide_eq_true, IH. split; [by intros [-> ->]|by intros [= -> ->]].
Qed.

Lemma match_toks_star_only s : match_toks [TStar] s = true.
Proof.
  induction s as [|d s IHs]; rewrite match_toks_star; [done|].
  by rewrite IHs, orb_true_r.
Qed.

Lemma match_toks_lits_star lits s :
  match_toks ((TLit <$> lits) ++ [TStar]) s = true <-> exists rest, s = lits ++ rest.
Proof.
  revert s. induction lits as [|c lits IH]; intros s.
  - simpl app. rewrite match_toks_star_only. split; [by exists s|done].
  - destruct s as [|d s]; simpl.
    + split; [done|]. by intros (rest & ?).
    + rewrite andb_true_iff, bool_decide_eq_true, IH. split.
      * intros [-> (rest & ->)]. by exists rest.
      * intros (rest & [= -> ->]). split; [done|]. by exists rest.
Qed.

Lemma match_toks_star_lits lits s :
  match_toks (TStar :: (TLit <$> lits)) s = true <-> exists pre, s = pre ++ lits.
Proof.
  induction s as [|d s IHs]; rewrite match_toks_star, orb_true_iff, match_toks_lits.
  - split.
    + intros [<-|?]; [by exists []|done].
    + intros (pre & Hpre). left. symmetry in Hpre. by apply app_eq_nil in Hpre as [_ ->].
  - rewrite IHs. split.
    + intros [<-|(pre & ->)]; [by exists []|by exists (d :: pre)].
    + intros ([|d' pre] & Hpre); simpl in Hpre.
      * by left.
      * injection Hpre as -> ->. right. by exists pre.
Qed.

Lemma list_ascii_of_string_app s1 s2 :
  list_ascii_of_string (s1 +:+ s2) = list_ascii_of_string s1 ++ list_ascii_of_string s2.
Proof. induction s1 as [|a s1 IH]; simpl; [done|]. by rewrite <- IH. Qed.

Lemma string_has_prefix lits s :
  (exists rest, list_ascii_of_string s = list_ascii_of_string lits ++ rest) <->
  exists rest, s = lits +:+ rest.
Proof.
  split.
  - intros (rest & H). exists (string_of_list_ascii rest).
    rewrite <- (string_of_list_ascii_of_string s), H.
    rewrite <- (list_ascii_of_string_of_list_ascii rest) at 1.
    by rewrite <- list_ascii_of_string_app, string_of_list_ascii_of_string.
  - intros (rest & ->). exists (list_ascii_of_string rest). apply list_ascii_of_string_app.
Qed.

Lemma string_has_suffix lits s :
  (exists pre, list_ascii_of_string s = pre ++ list_ascii_of_string lits) <->
  exists pre, s = pre +:+ lits.
Proof.
  split.
  - intros (pre & H). exists (string_of_list_ascii pre).
    rewrite <- (string_of_list_ascii_of_string s), H.
    rewrite <- (list_ascii_of_string_of_list_ascii pre) at 1.
    by rewrite <- list_ascii_of_string_app, string_of_list_ascii_of_string.
  - intros (pre & ->). exists (list_ascii_of_string pre). apply list_ascii_of_string_app.
Qed.

(** What the default patterns match: names that start with [~$] or [.~] or
    end with [.tmp] or [.temp]. *)
Lemma default_patterns_match file_name0 :
  existsb (fnmatch file_name0) default_ignore_patterns = true <->
  (exists rest, file_name0 = "~$" +:+ rest) \/ (exists rest, file_name0 = ".~" +:+ rest) \/
  (exists pre, file_name0 = pre +:+ ".tmp") \/ (exists pre, file_name0 = pre +:+ ".temp").
Proof.
  unfold default_ignore_patterns. simpl existsb.
  rewrite orb_false_r, !orb_true_iff. unfold fnmatch.
  change (translate "~$*") with ((TLit <$> list_ascii_of_string "~$") ++ [TStar]).
  change (translate ".~*") with ((TLit <$> list_ascii_of_string ".~") ++ [TStar]).
  change (translate "*.tmp") with (TStar :: (TLit <$> list_ascii_of_string ".tmp")).
  change (translate "*.temp") with (TStar :: (TLit <$> list_ascii_of_string ".temp")).
  rewrite !match_toks_lits_star, !match_toks_star_lits.
  by rewrite !string_has_prefix, !string_has_suffix.
Qed.

(** ** Discovery (discovery.py) *)

Lemma collect_filter ignored hits discovered :
  collect ignored hits discovered = discovered ++ (fst <$> filter (kept ignored) hits).
Proof.
  revert discovered. induction hits as [|[file_path is_file] hits IH]; intros discovered.
  - simpl. by rewrite app_nil_r.
  - simpl collect. destruct is_file; simpl.
    + destruct (_should_ignore ignored file_path) eqn:Hs; simpl.
      * rewrite filter_cons_False; [apply IH|]. unfold kept. simpl. rewrite Hs. simpl. tauto.
      * rewrite filter_cons_True; [|unfold kept; simpl; rewrite Hs; simpl; tauto].
        rewrite IH, <- app_assoc. done.
    + rewrite filter_cons_False; [apply IH|]. unfold kept. simpl. tauto.
Qed.

Lemma kept_iff ignored file_path is_file :
  kept ignored (file_path, is_file) <->
  is_file = true /\ forall pattern, pattern ∈ ignored -> fnmatch (path_name file_path) pattern = false.
Proof.
  unfold kept, _should_ignore. simpl. rewrite andb_True, negb_True. split.
  - intros [Hf Hnone]. split; [by apply Is_true_true|]. intros pat Hin.
    destruct (fnmatch (path_name file_path) pat) eqn:Hm; [|done].
    exfalso. apply Hnone, Is_true_true, existsb_exists.
    exists pat. split; [by apply list_elem_of_In|done].
  - intros [-> Hnone]. split; [done|]. intros Hex%Is_true_true.
    apply existsb_exists in Hex as (pat & Hin%list_elem_of_In & Hm).
    rewrite (Hnone pat Hin) in Hm. done.
Qed.

(** C9, as the code has it.  When the root exists and the glob returns its
    hits, [discover] returns exactly the hits that are files and whose name no
    ignore pattern matches, each as often as the glob gave it, sorted in the
    order of paths: part by part, the first part in which two paths differ
    deciding, as strings, so that the files of one directory are in the
    order of their names.  With the default patterns the names ignored are
    those that start with [~$] or [.~] or end with [.tmp] or [.temp]: a file
    named [~$report.xlsx] is never in the result and a file named
    [report.xlsx] that the glob found is. *)
Theorem discover_filters_and_sorts (E : Env) (pattern : string)
    (ignore_patterns0 : list string) (w : World) (hits : list (Path * bool)) :
  root_exists E (ticks w) = true ->
  glob E (S (ticks w)) pattern = Returned hits ->
  let ignored := init_ignore_patterns ignore_patterns0 in
  exists files,
    discover E pattern ignore_patterns0 w = (Returned files, emit (EvGlob pattern) (tick w)) /\
    files ≡ₚ fst <$> filter (kept ignored) hits /\
    (forall p, p ∈ files <->
       (p, true) ∈ hits /\
       forall pat, pat ∈ ignored -> fnmatch (path_name p) pat = false) /\
    StronglySorted path_le files /\
    StronglySorted parts_before files /\
    (forall i j dir a b,
       (i < j)%nat -> files !! i = Some (dir ++ [a]) -> files !! j = Some (dir ++ [b]) ->
       String.compare a b <> Gt) /\
    (ignored = default_ignore_patterns ->
       (forall p, p ∈ files <->
          (p, true) ∈ hits /\
          ~ ((exists rest, path_name p = "~$" +:+ rest) \/
             (exists rest, path_name p = ".~" +:+ rest) \/
             (exists pre, path_name p = pre +:+ ".tmp") \/
             (exists pre, path_name p = pre +:+ ".temp"))) /\
       (forall p, path_name p = "~$report.xlsx" -> p ∉ files) /\
       (forall p, path_name p = "report.xlsx" -> (p, true) ∈ hits -> p ∈ files)).
Proof.
  intros Hroot Hglob ignored.
  exists (sorted (collect ignored hits [])).
  assert (forall p, p ∈ sorted (collect ignored hits []) <->
            (p, true) ∈ hits /\
            forall pat, pat ∈ ignored -> fnmatch (path_name p) pat = false) as Hmem.
  { intros p. unfold sorted. rewrite merge_sort_Permutation, collect_filter. simpl.
    rewrite list_elem_of_fmap. split.
    - intros ([p' is_file] & -> & [Hk Hin]%list_elem_of_filter). simpl.
      apply kept_iff in Hk as [-> Hnone]. done.
    - intros [Hin Hnone]. exists (p, true). split; [done|].
      apply list_elem_of_filter. split; [|done]. by apply kept_iff. }
  assert (StronglySorted path_le (sorted (collect ignored hits []))) as Hsorted.
  { apply StronglySorted_merge_sort; apply _. }
  split; [|split; [|split; [|split; [|split; [|split]]]]].
  - unfold discover. rewrite bind_run. simpl. rewrite Hroot. simpl.
    rewrite bind_run. unfold call. simpl. by rewrite Hglob.
  - unfold sorted. by rewrite merge_sort_Permutation, collect_filter.
  - done.
  - done.
  - eapply StronglySorted_impl; [|exact Hsorted]. intros p q. apply path_le_parts_before.
  - intros i j dir a b Hlt Hi Hj.
    pose proof (StronglySorted_lookup_lt _ _ _ _ _ _ Hsorted Hlt Hi Hj) as Hle.
    unfold path_le in Hle. by rewrite parts_compare_same_directory in Hle.
  - intros Hdefault.
    assert (forall p, (forall pat, pat ∈ ignored -> fnmatch (path_name p) pat = false) <->
              ~ ((exists rest, path_name p = "~$" +:+ rest) \/
                 (exists rest, path_name p = ".~" +:+ rest) \/
                 (exists pre, path_name p = pre +:+ ".tmp") \/
                 (exists pre, path_name p = pre +:+ ".temp"))) as Hdef.
    { intros p. rewrite <- default_patterns_match, Hdefault, existsb_exists. split.
      - intros Hnone (pat & Hin%list_elem_of_In & Hm). rewrite (Hnone pat Hin) in Hm. done.
      - intros Hnone pat Hin. apply not_true_iff_false. intros Hm. apply Hnone.
        exists pat. split; [by apply list_elem_of_In|done]. }
    split; [|split].
    + intros p. by rewrite Hmem, Hdef.
    + intros p Hname. rewrite Hmem, Hdef, Hname. intros [_ Hnot]. apply Hnot.
      left. by exists "report.xlsx".
    + intros p Hname Hin. rewrite Hmem, Hdef, Hname. split; [done|].
      intros [(rest & [=])|[(rest & [=])|[(pre & Hpre)|(pre & Hpre)]]].
      * apply (f_equal (fun s => existsb (fnmatch s) default_ignore_patterns)) in Hpre.
        rewrite (proj2 (default_patterns_match (pre +:+ ".tmp"))) in Hpre;
          [by vm_compute in Hpre|]. right. right. left. by exists pre.
      * apply (f_equal (fun s => existsb (fnmatch s) default_ignore_patterns)) in Hpre.
        rewrite (proj2 (default_patterns_match (pre +:+ ".temp"))) in Hpre;
          [by vm_compute in Hpre|]. right. right. right. by exists pre.
Qed.

(** ** The theorems at work on a concrete world *)

Lemma should_process_iff_new_or_changed_witness :
  query_fault calm_env (ticks (after_newer_success (-5))) "a.xlsx" = None /\
  checksum <$> registry (world_with_success "sha256:old" (-5)) = ["sha256:old"] /\
  (forall r, r ∈ registry (world_with_success "sha256:old" (-5)) -> selected "a.xlsx" r ->
             processed_at r < utcnow calm_env (ticks (world_with_success "sha256:old" (-5)))) /\
  checksum <$> registry (after_newer_success (-5)) = ["sha256:old"; "sha256:a.xlsx"] /\
  exists b,
    should_process calm_env ["in"; "a.xlsx"] "sha256:a.xlsx" (after_newer_success (-5))
      = (Returned b, emit (EvQuery "a.xlsx") (after_newer_success (-5))) /\
    b = false.
Proof.
  assert (forall r, r ∈ registry (world_with_success "sha256:old" (-5)) -> selected "a.xlsx" r ->
            processed_at r < utcnow calm_env (ticks (world_with_success "sha256:old" (-5))))
    as Hnewest.
  { intros r Hin _. apply list_elem_of_singleton in Hin as ->. by vm_compute. }
  split; [reflexivity|]. split; [reflexivity|]. split; [exact Hnewest|].
  split; [by vm_compute|].
  destruct (should_process_iff_new_or_changed calm_env ["in"; "a.xlsx"] "sha256:a.xlsx"
              (after_newer_success (-5)) eq_refl) as (b & Hrun & _ & _ & Hidem).
  exists b. split; [exact Hrun|].
  apply (Hidem (world_with_success "sha256:old" (-5)) (Some 2));
    [reflexivity|reflexivity|exact Hnewest].
Defined.


Lemma run_exit_code_witness :
  exists w0 w',
    setup_and_discover calm_env (demo_config false) empty_world
      = (Returned [["in"; "a.xlsx"]; ["in"; "b.xlsx"]; ["in"; "c.xlsx"]], w0) /\
    (attempts calm_env (demo_config false)
       [["in"; "a.xlsx"]; ["in"; "b.xlsx"]; ["in"; "c.xlsx"]] w0).1
      = [Returned true;
         Raised (Exc OverflowError "cannot convert float infinity to integer");
         Returned true] /\
    run calm_env (demo_config false) empty_world = (Returned 1, w').
Proof.
  destruct (run_exit_code calm_env (demo_config false) empty_world)
    as (code & w' & Hrun & Hmatch).
  destruct (setup_and_discover calm_env (demo_config false) empty_world)
    as [[files|e] w0] eqn:Hsd; [|by vm_compute in Hsd].
  vm_compute in Hsd. injection Hsd as <- <-.
  destruct Hmatch as (counts & _ & _ & _ & _ & _ & _ & _ & _ & Hone & _).
  cbv zeta in Hone.
  eexists _, w'. split; [reflexivity|].
  match goal with
  | |- (attempts ?E ?c ?f ?w0).1 = ?l /\ _ =>
      assert ((attempts E c f w0).1 = l) as Hatt by (by vm_compute)
  end.
  split; [exact Hatt|].
  rewrite Hrun. f_equal. f_equal. apply Hone.
  exists (Exc OverflowError "cannot convert float infinity to integer").
  rewrite Hatt. right. left.
Defined.


(** C1 as stated fails.  With the SUCCESS record of [a.xlsx] in the table
    and the same checksum at hand, [should_process] answers [True] when the
    query raises.  And right after a SUCCESS record was written with the
    checksum at hand, it answers [True] when an older SUCCESS record of the
    name bears a later timestamp: that one is the most recent for the query. *)
Lemma should_process_true_over_equal_success :
  (exists r, latest_success (registry after_success) "a.xlsx" r /\
             checksum r = "sha256:a.xlsx") /\
  should_process query_down_env ["in"; "a.xlsx"] "sha256:a.xlsx" after_success
    = (Returned true, emit (EvQuery "a.xlsx") after_success) /\
  record_processing calm_env "a.xlsx" "sha256:a.xlsx" SUCCESS None (Some 2)
      (world_with_success "sha256:old" 100)
    = (Returned (), after_newer_success 100) /\
  (checksum <$> registry (after_newer_success 100) = ["sha256:old"; "sha256:a.xlsx"] /\
   status <$> registry (after_newer_success 100) = [SUCCESS; SUCCESS] /\
   processed_at <$> registry (after_newer_success 100) = [100; 0]) /\
  query_fault calm_env (ticks (after_newer_success 100)) "a.xlsx" = None /\
  should_process calm_env ["in"; "a.xlsx"] "sha256:a.xlsx" (after_newer_success 100)
    = (Returned true, emit (EvQuery "a.xlsx") (after_newer_success 100)).
Proof.
  split; [|by vm_compute].
  exists {| file_name := "a.xlsx"; checksum := "sha256:a.xlsx"; processed_at := 0;
            status := SUCCESS; error_message := None; row_count := Some 2 |}.
  split; [|reflexivity].
  split; [apply list_elem_of_singleton; reflexivity|]. split; [done|].
  intros r' ->%list_elem_of_singleton _. done.
Qed.

(** C9 as stated fails.  The glob finds [in/a.xlsx] and [in/a/b.xlsx]:
    [discover] returns [in/a/b.xlsx] first, since the part [a] comes before
    the part [a.xlsx], while as strings [in/a.xlsx] comes before
    [in/a/b.xlsx]. *)
Lemma discover_order_is_not_that_of_the_strings :
  discover (demo_env nested_hits [] false InsertOk demo_rows) "**/*.xlsx"
      default_ignore_patterns empty_world
    = (Returned [["in"; "a"; "b.xlsx"]; ["in"; "a.xlsx"]],
       emit (EvGlob "**/*.xlsx") (tick empty_world)) /\
  path_str ["in"; "a"; "b.xlsx"] = "in/a/b.xlsx" /\
  path_str ["in"; "a.xlsx"] = "in/a.xlsx" /\
  String.compare "in/a/b.xlsx" "in/a.xlsx" = Gt.
Proof. by vm_compute. Qed.



Lemma discover_filters_and_sorts_witness :
  (root_exists (demo_env report_hits [] false InsertOk demo_rows) 0 = true /\
   glob (demo_env report_hits [] false InsertOk demo_rows) 1 "**/*.xlsx" = Returned report_hits) /\
  exists files,
    discover (demo_env report_hits [] false InsertOk demo_rows) "**/*.xlsx"
      default_ignore_patterns empty_world
      = (Returned files, emit (EvGlob "**/*.xlsx") (tick empty_world)) /\
    (["in"; "~$report.xlsx"] ∉ files) /\
    (["in"; "report.xlsx"] ∈ files).
Proof.
  split; [by vm_compute|].
  destruct (discover_filters_and_sorts (demo_env report_hits [] false InsertOk demo_rows)
              "**/*.xlsx" default_ignore_patterns empty_world report_hits eq_refl eq_refl)
    as (files & Hrun & _ & _ & _ & _ & _ & Hdefault).
  destruct (Hdefault eq_refl) as (_ & Hlock & Hbook).
  exists files. split; [exact Hrun|]. split.
  - apply Hlock. reflexivity.
  - apply Hbook; [reflexivity|]. right. left.
Defined.

Lemma normalize_one_row_per_input_row_witness :
  (forall row field, row ∈ demo_rows "a.xlsx" -> field ∈ demo_schema ->
                     ~ infinite_integer_cell row field) /\
  exists out w',
    normalize calm_env demo_schema (demo_rows "a.xlsx") ["in"; "a.xlsx"] "abc" empty_world
      = (Returned out, w') /\
    length out = 2%nat /\
    forall r, r ∈ out -> keys r = ["A"; "B"; "source_file"; "checksum"; "ingest_ts"].
Proof.
  assert (forall row field, row ∈ demo_rows "a.xlsx" -> field ∈ demo_schema ->
                            ~ infinite_integer_cell row field) as Hok.
  { intros row field Hrow Hfield (Htype & value & s & Hcell & Hinf).
    apply elem_of_cons in Hfield as [->|Hfield].
    - apply elem_of_cons in Hrow as [->|Hrow].
      + vm_compute in Hcell. injection Hcell as <-. by vm_compute in Hinf.
      + apply list_elem_of_singleton in Hrow as ->.
        vm_compute in Hcell. injection Hcell as <-. by vm_compute in Hinf.
    - apply list_elem_of_singleton in Hfield as ->. by vm_compute in Htype. }
  split; [exact Hok|].
  destruct (normalize_one_row_per_input_row calm_env demo_schema (demo_rows "a.xlsx")
              ["in"; "a.xlsx"] "abc" empty_world Hok) as (out & w' & Hrun & Hlen & _ & Hkeys).
  exists out, w'. split; [exact Hrun|]. split; [exact Hlen|].
  intros r Hr. destruct (Hkeys r Hr) as (_ & Hnodup & _). apply Hnodup.
  vm_compute. repeat constructor; set_solver.
Defined.

(** C10, where the code departs from it.  A row with the text [1e999] in an
    INTEGER column makes [normalize] raise: two input rows, no output row.
    And with a schema column named [checksum], as the sheet has it, the output
    row has three keys where the code counts [len(target_columns) + 3] columns
    and [_convert_schema] names four: the audit value is written over the
    cell of the sheet. *)
Theorem normalize_breaks_the_row_shape :
  (forall (E : Env) (source_file : Path) (checksum0 : string) (w : World),
     normalize E [ {| name := "A"; type := "INTEGER"; mode := "NULLABLE" |} ]
       [ {[ "A" := Some "7" ]}; {[ "A" := Some "1e999" ]} ] source_file checksum0 w
     = (Raised (Exc OverflowError "cannot convert float infinity to integer"), tick w)) /\
  (forall (E : Env) (source_file : Path) (checksum0 : string) (w : World),
     let schema0 := [ {| name := "checksum"; type := "STRING"; mode := "NULLABLE" |} ] in
     exists row w',
       normalize E schema0 [ {[ "checksum" := Some "from the sheet" ]} ]
         source_file checksum0 w
       = (Returned [row], w') /\
       keys row = ["checksum"; "source_file"; "ingest_ts"] /\
       length (keys row) <> (length schema0 + 3)%nat /\
       dict_get "checksum" row = Some (VStr checksum0) /\
       name <$> _convert_schema schema0 = ["checksum"; "source_file"; "checksum"; "ingest_ts"]).
Proof.
  split.
  - intros E source_file checksum0 w. by vm_compute.
  - intros E source_file checksum0 w schema0. eexists _, _.
    split; [by vm_compute|]. split; [done|]. split; [done|]. split; [|done].
    by vm_compute.
Qed.

(** ** What C8 gets right *)

(** The two rows of the specification, in any environment: the three audit
    values are strings, never [None]. *)
Lemma normalize_examples (E : Env) (source_file : Path) (checksum0 : string) (w : World) :
  normalize E demo_schema [ {[ "A" := Some "3.7"; "B" := Some "yes" ]} ] source_file checksum0 w
    = (Returned [ [ ("A", VInt 3); ("B", VBool true);
                    ("source_file", VStr (path_str source_file));
                    ("checksum", VStr checksum0);
                    ("ingest_ts", VStr (isoformat E (utcnow E (ticks w)))) ] ],
       tick w) /\
  normalize E demo_schema [ {[ "A" := Some ""; "B" := Some "" ]} ] source_file checksum0 w
    = (Returned [ [ ("A", VNone); ("B", VNone);
                    ("source_file", VStr (path_str source_file));
                    ("checksum", VStr checksum0);
                    ("ingest_ts", VStr (isoformat E (utcnow E (ticks w)))) ] ],
       tick w).
Proof. split; reflexivity. Qed.

(** Text that [float] rejects, and a NaN, become [None] in an INTEGER or a
    FLOAT column; nothing is raised. *)
Lemma unparseable_becomes_none value target_type column_name e :
  value <> "" -> target_type = "INTEGER" \/ target_type = "FLOAT" ->
  py_float value = Raised e ->
  _cast_value (Some value) target_type column_name = Returned VNone.
Proof.
  intros Hne Htype Hf. rewrite _cast_value_cases, Hf.
  rewrite decide_False by done. destruct Htype as [-> | ->]; by repeat case_decide.
Qed.

(** Every type but INTEGER never raises. *)
Lemma only_integer_raises value target_type column_name :
  target_type <> "INTEGER" ->
  is_returned (_cast_value value target_type column_name) = true.
Proof.
  intros Htype. rewrite _cast_value_cases. destruct value as [v|]; [|done].
  repeat case_decide; try done. by destruct (py_float v).
Qed.

(** * More of the code *)

(** ** The other paths of [_process_file] (pipeline.py) *)








(** ** Time only moves forward *)

Lemma advances_ret {A} (a : A) : advances (mret a : M A).
Proof. intros w. simpl. lia. Qed.

Lemma advances_raise {A} (e : exn) : advances (raise e : M A).
Proof. intros w. simpl. lia. Qed.

Lemma advances_lift {A} (r : Res A) : advances (lift r).
Proof. intros w. simpl. lia. Qed.

Lemma advances_read_clock E : advances (read_clock E).
Proof. intros w. simpl. lia. Qed.

Lemma advances_call {A} (ev : Event) (oracle : nat -> Res A) : advances (call ev oracle).
Proof. intros w. simpl. lia. Qed.

Lemma advances_bind {A B} (m : M A) (f : A -> M B) :
  advances m -> (forall a, advances (f a)) -> advances (m ≫= f).
Proof.
  intros Hm Hf w. rewrite bind_run. specialize (Hm w).
  destruct (m w) as [[a|e] w1]; simpl in *; [|done].
  specialize (Hf a w1). lia.
Qed.

Lemma advances_try_except {A} (body : M A) (handler : exn -> M A) :
  advances body -> (forall e, advances (handler e)) -> advances (try_except body handler).
Proof.
  intros Hm Hf w. rewrite try_except_run. specialize (Hm w).
  destruct (body w) as [[a|e] w1]; simpl in *; [done|].
  specialize (Hf e w1). lia.
Qed.

Create HintDb advances.
#[global] Hint Resolve advances_ret advances_raise advances_lift advances_read_clock
  advances_call : advances.

Ltac advances_step :=
  match goal with
  | |- advances (mbind _ _) => apply advances_bind; [|intros ?]
  | |- advances (try_except _ _) => apply advances_try_except; [|intros ?]
  | |- advances (if ?b then _ else _) => destruct b
  | |- advances (match ?x with _ => _ end) => destruct x
  | |- advances _ => solve [auto with advances]
  end.

Lemma advances_should_process E file_path checksum0 :
  advances (should_process E file_path checksum0).
Proof. intros w. rewrite should_process_run. simpl. lia. Qed.

Lemma advances_calculate E algorithm file_path : advances (calculate E algorithm file_path).
Proof. unfold calculate. case_decide; repeat advances_step. Qed.

Lemma advances_parse E file_path : advances (parse E file_path).
Proof. unfold parse. repeat advances_step. Qed.

Lemma advances_normalize_rows E schema0 data source_file checksum0 acc :
  advances (normalize_rows E schema0 data source_file checksum0 acc).
Proof.
  revert acc. induction data as [|row data IH]; intros acc; simpl; repeat advances_step.
Qed.

Lemma advances_normalize E schema0 data source_file checksum0 :
  advances (normalize E schema0 data source_file checksum0).
Proof.
  unfold normalize. destruct data; [apply advances_ret|apply advances_normalize_rows].
Qed.

Lemma advances_serialize E format data file_stem : advances (serialize E format data file_stem).
Proof. unfold serialize. repeat advances_step. Qed.

Lemma advances_upload E bucket prefix local_path :
  advances (upload E bucket prefix local_path).
Proof. unfold upload. repeat advances_step. Qed.

Lemma advances_load_from_gcs E gcs_uri : advances (load_from_gcs E gcs_uri).
Proof. unfold load_from_gcs. repeat advances_step. Qed.

#[global] Hint Resolve advances_should_process advances_calculate advances_parse
  advances_normalize advances_serialize advances_upload advances_load_from_gcs : advances.

Lemma advances_stages E config file_path checksum0 :
  advances (stages E config file_path checksum0).
Proof. unfold stages. repeat advances_step. Qed.

(** ** What the registry query does not see (state.py) *)

Lemma select_checksum_app_unselected table rows file_name0 :
  Forall (fun r => ~ selected file_name0 r) rows ->
  select_checksum (table ++ rows) file_name0 = select_checksum table file_name0.
Proof.
  intros Hrows. unfold select_checksum. rewrite filter_app.
  assert (filter (selected file_name0) rows = []) as ->.
  { induction Hrows as [|r rows Hr _ IH]; [done|]. by rewrite filter_cons_False. }
  by rewrite app_nil_r.
Qed.

(** X3.  Records with status FAILED and records of other file names do not
    count: appended to the registry, they leave the answer of [should_process]
    for a file as it was, as long as the registry answers both queries. *)
Theorem other_records_do_not_change_the_decision (E : Env) (file_path : Path)
    (current : string) (w w' : World) (rows : list FileRecord) :
  registry w' = registry w ++ rows ->
  Forall (fun r => status r = FAILED \/ file_name r <> path_name file_path) rows ->
  query_fault E (ticks w) (path_name file_path) = None ->
  query_fault E (ticks w') (path_name file_path) = None ->
  (should_process E file_path current w').1 = (should_process E file_path current w).1.
Proof.
  intros Hreg Hrows Hq Hq'. rewrite !should_process_run. simpl.
  unfold stored_checksum. rewrite Hq, Hq', Hreg, select_checksum_app_unselected; [done|].
  eapply Forall_impl; [exact Hrows|]. intros r [Hf|Hn] [Hname Hst]; congruence.
Qed.

Lemma other_records_do_not_change_the_decision_witness :
  (should_process calm_env ["in"; "a.xlsx"] "sha256:a.xlsx"
     {| registry := registry after_success ++
          [ {| file_name := "a.xlsx"; checksum := "other"; processed_at := 50;
               status := FAILED; error_message := Some "boom"; row_count := None |};
            {| file_name := "b.xlsx"; checksum := "sha256:b.xlsx"; processed_at := 60;
               status := SUCCESS; error_message := None; row_count := Some 1 |} ];
        trace := [];
        ticks := 70 |}).1
  = (should_process calm_env ["in"; "a.xlsx"] "sha256:a.xlsx" after_success).1.
Proof.
  apply other_records_do_not_change_the_decision with
    (rows := [ {| file_name := "a.xlsx"; checksum := "other"; processed_at := 50;
                  status := FAILED; error_message := Some "boom"; row_count := None |};
               {| file_name := "b.xlsx"; checksum := "sha256:b.xlsx"; processed_at := 60;
                  status := SUCCESS; error_message := None; row_count := Some 1 |} ]);
    [reflexivity| |reflexivity|reflexivity].
  constructor; [by left|]. constructor; [by right|]. constructor.
Defined.

(** ** From one attempt to the next (pipeline.py with state.py) *)

(** X4.  A failure does not stop the next attempt.  When a stage from parse
    to load raised for a file that the registry, answering, said to process,
    then in any later world with the registry as that attempt left it and a
    registry that answers, [should_process] says [True] again for the same
    content. *)
Theorem failed_file_is_retried (E : Env) (config : IngestionConfig) (file_path : Path)
    (w : World) (checksum0 : string) (w1 w2 : World) (e : exn) (w3 : World) :
  calculate E (checksum_algorithm config) file_path w = (Returned checksum0, w1) ->
  query_fault E (ticks w1) (path_name file_path) = None ->
  should_process E file_path checksum0 w1 = (Returned true, w2) ->
  dry_run config = false ->
  stages E config file_path checksum0 w2 = (Raised e, w3) ->
  exists w4,
    _process_file E config file_path w = (Raised e, w4) /\
    forall w5,
      registry w5 = registry w4 ->
      query_fault E (ticks w5) (path_name file_path) = None ->
      should_process E file_path checksum0 w5
        = (Returned true, emit (EvQuery (path_name file_path)) w5).
Proof.
  intros Hc Hq Hs Hdry Hst.
  set (row := new_row E (path_name file_path) checksum0 FAILED (Some (exc_msg e)) None w3).
  exists (recorded E row w3). split.
  { by rewrite _process_file_run, Hc, Hs, Hdry, Hst. }
  intros w5 Hreg Hq5.
  pose proof (leaves_should_process E file_path checksum0 w1) as [Hr2 _].
  pose proof (leaves_stages E config file_path checksum0 w2) as [Hr3 _].
  rewrite Hs in Hr2. rewrite Hst in Hr3. simpl in Hr2, Hr3.
  rewrite should_process_run in Hs. injection Hs as Hb _.
  rewrite should_process_run. f_equal. f_equal. etrans; [|exact Hb].
  unfold stored_checksum. rewrite Hq, Hq5, Hreg. unfold recorded. simpl.
  rewrite Hr3, Hr2.
  destruct (insert_rows_json E (S (ticks w3)) row); [|done|done].
  rewrite select_checksum_app_unselected; [done|].
  constructor; [|constructor]. by intros [_ ?].
Qed.

Lemma failed_file_is_retried_witness :
  exists w4,
    _process_file calm_env (demo_config false) ["in"; "b.xlsx"] empty_world
      = (Raised (Exc OverflowError "cannot convert float infinity to integer"), w4) /\
    should_process calm_env ["in"; "b.xlsx"] "sha256:b.xlsx" w4
      = (Returned true, emit (EvQuery "b.xlsx") w4).
Proof.
  pose (w1 := emit (EvReadFile ["in"; "b.xlsx"]) empty_world).
  pose (w2 := emit (EvQuery "b.xlsx") w1).
  destruct (failed_file_is_retried calm_env (demo_config false) ["in"; "b.xlsx"] empty_world
              "sha256:b.xlsx" w1 w2
              (Exc OverflowError "cannot convert float infinity to integer")
              (emit (EvParse ["in"; "b.xlsx"]) w2))
    as (w4 & Hpf & Hnext); try by vm_compute.
  exists w4. split; [exact Hpf|]. apply Hnext; [reflexivity|reflexivity].
Defined.

(** X5.  A version of a file is loaded once.  In an environment whose
    inserts go through and whose clock never runs backwards, after
    [_process_file] has processed a file for real, a file of the same base
    name and the same checksum, wherever it lies, is skipped as long as the
    registry answers: [_process_file] returns [False] and the registry keeps
    its rows. *)
Theorem processed_file_is_skipped_next_time (E : Env) (config : IngestionConfig)
    (file_path : Path) (w : World) (checksum0 : string) (w1 w' : World)
    (file_path' : Path) (w1' : World) :
  (forall t r, insert_rows_json E t r = InsertOk) ->
  (forall t t', (t <= t')%nat -> utcnow E t <= utcnow E t') ->
  (forall r, r ∈ registry w -> processed_at r < utcnow E (ticks w)) ->
  dry_run config = false ->
  calculate E (checksum_algorithm config) file_path w = (Returned checksum0, w1) ->
  _process_file E config file_path w = (Returned true, w') ->
  path_name file_path' = path_name file_path ->
  calculate E (checksum_algorithm config) file_path' w' = (Returned checksum0, w1') ->
  query_fault E (ticks w1') (path_name file_path) = None ->
  _process_file E config file_path' w'
    = (Returned false, emit (EvQuery (path_name file_path)) w1') /\
  registry (emit (EvQuery (path_name file_path)) w1') = registry w'.
Proof.
  intros Hins Hclock Hpast Hdry Hc Hpf Hname Hc' Hq.
  rewrite _process_file_run, Hc in Hpf.
  pose proof (leaves_calculate E (checksum_algorithm config) file_path w) as [Hr1 _].
  pose proof (advances_calculate E (checksum_algorithm config) file_path w) as Ht1.
  rewrite Hc in Hr1, Ht1. simpl in Hr1, Ht1.
  pose proof (leaves_should_process E file_path checksum0 w1) as [Hr2 _].
  pose proof (advances_should_process E file_path checksum0 w1) as Ht2.
  destruct (should_process E file_path checksum0 w1) as [[[|]|e] w2]; try done.
  simpl in Hr2, Ht2. rewrite Hdry in Hpf.
  pose proof (leaves_stages E config file_path checksum0 w2) as [Hr3 _].
  pose proof (advances_stages E config file_path checksum0 w2) as Ht3.
  destruct (stages E config file_path checksum0 w2) as [[dn|e] w3]; [|done].
  simpl in Hr3, Ht3. injection Hpf as <-.
  set (row := new_row E (path_name file_path) checksum0 SUCCESS None
                (Some (Z.of_nat (length dn))) w3) in *.
  pose proof (leaves_calculate E (checksum_algorithm config) file_path' (recorded E row w3))
    as [Hr1' _].
  rewrite Hc' in Hr1'. simpl in Hr1'. rewrite Hins in Hr1'.
  assert (stored_checksum E (path_name file_path) w1' = Some checksum0) as Hstored.
  { unfold stored_checksum. rewrite Hq, Hr1'.
    destruct (select_checksum (registry w3 ++ [row]) (path_name file_path))
      as [|c rest] eqn:Hsel.
    - exfalso. apply (proj1 (select_checksum_nil _ _) Hsel row); [|done].
      apply elem_of_app. right. left.
    - apply select_checksum_cons in Hsel as [-> (r & (Hin & Hsel & Hmax) & <-)]. simpl.
      apply elem_of_app in Hin as [Hin|Hin].
      + exfalso. rewrite Hr3, Hr2, Hr1 in Hin. specialize (Hpast r Hin).
        assert (processed_at row <= processed_at r) as Hle.
        { apply Hmax; [apply elem_of_app; right; left|done]. }
        simpl in Hle. specialize (Hclock (ticks w) (ticks w3)). lia.
      + apply list_elem_of_singleton in Hin. by rewrite Hin. }
  split.
  - rewrite _process_file_run, Hc', should_process_run, Hname, Hstored.
    by rewrite bool_decide_false by (intros ?; done).
  - simpl. rewrite Hr1'. unfold recorded. simpl. by rewrite Hins.
Qed.

Lemma processed_file_is_skipped_next_time_witness :
  exists w',
    _process_file calm_env (demo_config false) ["in"; "a.xlsx"] empty_world = (Returned true, w') /\
    _process_file calm_env (demo_config false) ["in"; "moved"; "a.xlsx"] w'
      = (Returned false, emit (EvQuery "a.xlsx") (emit (EvReadFile ["in"; "moved"; "a.xlsx"]) w')).
Proof.
  pose (w' := (_process_file calm_env (demo_config false) ["in"; "a.xlsx"] empty_world).2).
  exists w'. split; [by vm_compute|].
  apply (processed_file_is_skipped_next_time calm_env (demo_config false) ["in"; "a.xlsx"]
           empty_world "sha256:a.xlsx" (emit (EvReadFile ["in"; "a.xlsx"]) empty_world) w'
           ["in"; "moved"; "a.xlsx"] (emit (EvReadFile ["in"; "moved"; "a.xlsx"]) w'));
    try by vm_compute.
  - intros t t' Hle. simpl. lia.
  - intros r Hin. by apply elem_of_nil in Hin.
Defined.

(** ** What a run adds to the trace and to the registry (pipeline.py) *)

Section Emits.
Context (P : Event -> Prop).

Lemma emits_ret {A} (a : A) : emits P (mret a : M A).
Proof. intros w. exists []. simpl. by rewrite app_nil_r. Qed.

Lemma emits_raise {A} (e : exn) : emits P (raise e : M A).
Proof. intros w. exists []. simpl. by rewrite app_nil_r. Qed.

Lemma emits_lift {A} (r : Res A) : emits P (lift r).
Proof. intros w. exists []. simpl. by rewrite app_nil_r. Qed.

Lemma emits_read_clock E : emits P (read_clock E).
Proof. intros w. exists []. simpl. by rewrite app_nil_r. Qed.

Lemma emits_call {A} (ev : Event) (oracle : nat -> Res A) : P ev -> emits P (call ev oracle).
Proof. intros Hev w. exists [ev]. simpl. split; [done|]. by constructor. Qed.

Lemma emits_bind {A B} (m : M A) (f : A -> M B) :
  emits P m -> (forall a, emits P (f a)) -> emits P (m ≫= f).
Proof.
  intros Hm Hf w. rewrite bind_run. destruct (Hm w) as (added & Htr & Hall).
  destruct (m w) as [[a|e] w1]; simpl in *; [|by exists added].
  destruct (Hf a w1) as (added' & Htr' & Hall').
  exists (added ++ added'). rewrite Htr', Htr, <- app_assoc. split; [done|].
  by apply Forall_app.
Qed.

Lemma emits_try_except {A} (body : M A) (handler : exn -> M A) :
  emits P body -> (forall e, emits P (handler e)) -> emits P (try_except body handler).
Proof.
  intros Hm Hf w. rewrite try_except_run. destruct (Hm w) as (added & Htr & Hall).
  destruct (body w) as [[a|e] w1]; simpl in *; [by exists added|].
  destruct (Hf e w1) as (added' & Htr' & Hall').
  exists (added ++ added'). rewrite Htr', Htr, <- app_assoc. split; [done|].
  by apply Forall_app.
Qed.

Lemma emits_should_process E file_path checksum0 :
  (forall n, P (EvQuery n)) -> emits P (should_process E file_path checksum0).
Proof.
  intros HP w. rewrite should_process_run. eexists [_]. simpl. split; [done|].
  constructor; [apply HP|constructor].
Qed.

Lemma emits_record_processing E file_name0 checksum0 status0 error_message0 row_count0 :
  (forall r, P (EvInsert r)) ->
  emits P (record_processing E file_name0 checksum0 status0 error_message0 row_count0).
Proof.
  intros HP w. rewrite record_processing_run. eexists [_]. simpl. split; [done|].
  constructor; [apply HP|constructor].
Qed.

Lemma emits_normalize_rows E schema0 data source_file checksum0 acc :
  emits P (normalize_rows E schema0 data source_file checksum0 acc).
Proof.
  revert acc. induction data as [|row data IH]; intros acc; simpl.
  - apply emits_ret.
  - apply emits_bind; [apply emits_lift|]. intros r.
    apply emits_bind; [apply emits_read_clock|]. intros now. apply IH.
Qed.

Lemma emits_normalize E schema0 data source_file checksum0 :
  emits P (normalize E schema0 data source_file checksum0).
Proof.
  unfold normalize. destruct data; [apply emits_ret|apply emits_normalize_rows].
Qed.

End Emits.

Ltac emits_step :=
  match goal with
  | |- emits _ (mbind _ _) => apply emits_bind; [|intros ?]
  | |- emits _ (try_except _ _) => apply emits_try_except; [|intros ?]
  | |- emits _ (call _ _) => apply emits_call; done
  | |- emits _ (mret _) => apply emits_ret
  | |- emits _ (raise _) => apply emits_raise
  | |- emits _ (should_process _ _ _) => apply emits_should_process; done
  | |- emits _ (record_processing _ _ _ _ _ _) => apply emits_record_processing; done
  | |- emits _ (normalize _ _ _ _ _) => apply emits_normalize
  | |- emits _ (if ?b then _ else _) => destruct b
  end.

Lemma emits_calculate P E algorithm file_path :
  (forall p, P (EvReadFile p)) -> emits P (calculate E algorithm file_path).
Proof. intros HP. unfold calculate. case_decide; repeat emits_step. Qed.

Lemma emits_setup_and_discover P E config :
  P EvRegistryGetTable -> P EvRegistryCreateTable -> P EvTableExists -> P EvCreateTable ->
  (forall pattern, P (EvGlob pattern)) ->
  emits P (setup_and_discover E config).
Proof.
  intros H1 H2 H3 H4 H5.
  unfold setup_and_discover, ensure_registry_exists, discover.
  apply emits_bind; [repeat emits_step|]. intros _.
  apply emits_bind; [unfold table_exists; repeat emits_step|]. intros there.
  apply emits_bind.
  { destruct (negb there); [|apply emits_ret].
    unfold create_table. apply emits_bind; [unfold table_exists; repeat emits_step|].
    intros []; repeat emits_step. }
  intros _. apply emits_bind.
  { intros w. exists []. simpl. by rewrite app_nil_r. }
  intros root_there. repeat emits_step.
Qed.

Lemma emits_stages P E config file_path checksum0 :
  (forall p, P (EvParse p)) -> (forall d s, P (EvSerialize d s)) ->
  (forall p, P (EvUpload p)) -> (forall u, P (EvLoad u)) ->
  emits P (stages E config file_path checksum0).
Proof.
  intros H1 H2 H3 H4. unfold stages, parse, serialize, upload, load_from_gcs.
  repeat emits_step.
Qed.

(** In dry-run mode a file gives rise to its read and to a query, to nothing
    else. *)
Lemma emits_process_file_dry P E config file_path :
  dry_run config = true ->
  (forall p, P (EvReadFile p)) -> (forall n, P (EvQuery n)) ->
  emits P (_process_file E config file_path).
Proof.
  intros Hdry H1 H2. unfold _process_file. rewrite Hdry.
  apply emits_bind; [by apply emits_calculate|]. intros c.
  apply emits_bind; [by apply emits_should_process|]. intros go.
  destruct (negb go); apply emits_ret.
Qed.

Lemma emits_process_files P E config files counts :
  (forall file_path, emits P (_process_file E config file_path)) ->
  emits P (process_files E config files counts).
Proof.
  intros Hpf. revert counts. induction files as [|file_path files IH]; intros counts; simpl.
  - apply emits_ret.
  - apply emits_bind; [|intros ?; apply IH].
    apply emits_try_except; [|intros ?; apply emits_ret].
    apply emits_bind; [apply Hpf|]. intros []; apply emits_ret.
Qed.

Lemma emits_run P E config :
  emits P (setup_and_discover E config) ->
  (forall file_path, emits P (_process_file E config file_path)) ->
  emits P (run E config).
Proof.
  intros Hsetup Hpf w. rewrite run_run.
  destruct (Hsetup w) as (added & Htr & Hall).
  destruct (setup_and_discover E config w) as [[[|file_path files]|e] w0]; simpl in Htr;
    [by exists added| |by exists added].
  destruct (emits_process_files P E config (file_path :: files) no_counts Hpf w0)
    as (added' & Htr' & Hall').
  destruct (process_files E config (file_path :: files) no_counts w0) as [[counts|e] w1];
    simpl in Htr'; exists (added ++ added'); cbn [snd]; rewrite Htr', Htr, <- app_assoc;
    (split; [done|by apply Forall_app]).
Qed.

(** The loop leaves the registry as it was when no file touches it. *)
Lemma process_files_keep_registry E config files counts w :
  (forall file_path w0, registry (_process_file E config file_path w0).2 = registry w0) ->
  registry (process_files E config files counts w).2 = registry w.
Proof.
  intros Hpf. revert counts w. induction files as [|file_path files IH]; intros counts w.
  - done.
  - rewrite process_files_cons. specialize (Hpf file_path w).
    destruct (_process_file E config file_path w) as [[[|]|e] w']; simpl in Hpf;
      by rewrite IH.
Qed.

(** X6.  A dry run moves no data: whatever the files and the registry, no
    parse, serialisation, upload, load job or registry insert is called during
    [run], and the registry keeps its rows.  The calls made are those of the
    setup, which still creates a missing table, the glob, and for each file the
    read for its checksum and the registry query. *)
Theorem dry_run_moves_no_data (E : Env) (config : IngestionConfig) (w : World) :
  dry_run config = true ->
  registry (run E config w).2 = registry w /\
  exists added, trace (run E config w).2 = trace w ++ added /\ Forall moves_no_data added.
Proof.
  intros Hdry. split.
  - rewrite run_run.
    pose proof (leaves_setup_and_discover E config w) as [Hr0 _].
    destruct (setup_and_discover E config w) as [[[|file_path files]|e] w0]; simpl in Hr0;
      try done.
    assert (registry (process_files E config (file_path :: files) no_counts w0).2 = registry w0)
      as Hloop.
    { apply process_files_keep_registry. intros p w1. rewrite _process_file_run.
      pose proof (leaves_calculate E (checksum_algorithm config) p w1) as [Hr1 _].
      destruct (calculate E (checksum_algorithm config) p w1) as [[c|e] w2]; [|done].
      pose proof (leaves_should_process E p c w2) as [Hr2 _].
      destruct (should_process E p c w2) as [[[|]|e] w3]; simpl in *; try congruence.
      rewrite Hdry. simpl. congruence. }
    destruct (process_files E config (file_path :: files) no_counts w0) as [[counts|e] w1];
      simpl in *; congruence.
  - apply emits_run.
    + by apply emits_setup_and_discover.
    + intros p. by apply emits_process_file_dry.
Qed.

Lemma dry_run_moves_no_data_witness :
  run calm_env (demo_config true) empty_world
  = (Returned 0,
     {| registry := [];
        trace := [EvRegistryGetTable; EvTableExists; EvGlob "**/*.xlsx";
                  EvReadFile ["in"; "a.xlsx"]; EvQuery "a.xlsx";
                  EvReadFile ["in"; "b.xlsx"]; EvQuery "b.xlsx";
                  EvReadFile ["in"; "c.xlsx"]; EvQuery "c.xlsx"];
        ticks := 10 |}) /\
  registry (run calm_env (demo_config true) empty_world).2 = registry empty_world.
Proof.
  split; [by vm_compute|].
  exact (proj1 (dry_run_moves_no_data calm_env (demo_config true) empty_world eq_refl)).
Defined.

(** What one file adds to the registry: nothing, or one record under its
    base name, well formed. *)
Lemma process_file_appends E config file_path w :
  exists added,
    registry (_process_file E config file_path w).2 = registry w ++ added /\
    (length added <= 1)%nat /\
    Forall (fun r => well_formed r /\ file_name r = path_name file_path) added.
Proof.
  assert (forall w' : World, registry w' = registry w ->
            exists added,
              registry w' = registry w ++ added /\ (length added <= 1)%nat /\
              Forall (fun r => well_formed r /\ file_name r = path_name file_path) added)
    as Hnone.
  { intros w' Hw'. exists []. rewrite app_nil_r. split; [done|]. split; [simpl; lia|].
    constructor. }
  rewrite _process_file_run.
  pose proof (leaves_calculate E (checksum_algorithm config) file_path w) as [Hr1 _].
  destruct (calculate E (checksum_algorithm config) file_path w) as [[c|e] w1];
    simpl in Hr1; [|by apply Hnone].
  pose proof (leaves_should_process E file_path c w1) as [Hr2 _].
  destruct (should_process E file_path c w1) as [[[|]|e] w2]; simpl in Hr2;
    [|apply Hnone; simpl; congruence..].
  destruct (dry_run config); [apply Hnone; simpl; congruence|].
  pose proof (leaves_stages E config file_path c w2) as [Hr3 _].
  destruct (stages E config file_path c w2) as [[dn|e] w3]; simpl in Hr3.
  - simpl. destruct (insert_rows_json E (S (ticks w3)) _) eqn:Hins;
      [|apply Hnone; congruence..].
    eexists [_]. rewrite Hr3, Hr2, Hr1. split; [done|]. split; [simpl; lia|].
    constructor; [|constructor]. split; [|done]. unfold well_formed. simpl. eauto.
  - simpl. destruct (insert_rows_json E (S (ticks w3)) _) eqn:Hins;
      [|apply Hnone; congruence..].
    eexists [_]. rewrite Hr3, Hr2, Hr1. split; [done|]. split; [simpl; lia|].
    constructor; [|constructor]. split; [|done]. unfold well_formed. simpl. eauto.
Qed.

Lemma process_files_append E config files counts w :
  exists added,
    registry (process_files E config files counts w).2 = registry w ++ added /\
    (length added <= length files)%nat /\
    Forall (fun r => well_formed r /\ exists p, p ∈ files /\ file_name r = path_name p) added.
Proof.
  revert counts w. induction files as [|file_path files IH]; intros counts w.
  - exists []. simpl. rewrite app_nil_r. repeat split; [lia|done].
  - rewrite process_files_cons.
    destruct (process_file_appends E config file_path w) as (added & Hreg & Hlen & Hall).
    assert (forall counts' w',
              w' = (_process_file E config file_path w).2 ->
              exists added0,
                registry (process_files E config files counts' w').2 = registry w ++ added0 /\
                (length added0 <= length (file_path :: files))%nat /\
                Forall (fun r => well_formed r /\
                                 exists p, p ∈ file_path :: files /\ file_name r = path_name p)
                       added0) as Hstep.
    { intros counts' w' ->. destruct (IH counts' (_process_file E config file_path w).2)
        as (added' & Hreg' & Hlen' & Hall').
      exists (added ++ added'). rewrite Hreg', Hreg, <- app_assoc. split; [done|].
      split; [rewrite length_app; simpl; lia|].
      apply Forall_app. split.
      - eapply Forall_impl; [exact Hall|]. intros r [Hwf Hname]. split; [done|].
        exists file_path. split; [left|done].
      - eapply Forall_impl; [exact Hall'|]. intros r [Hwf (p & Hp & Hname)]. split; [done|].
        exists p. split; [by right|done]. }
    destruct (_process_file E config file_path w) as [[[|]|e] w']; by apply Hstep.
Qed.

(** X7.  The registry is an append-only log.  [run] never removes or changes
    a row: the registry after it is the registry before it followed by new
    rows, at most one for each discovered file and under the base name of one
    of them.  Each new row is well formed: SUCCESS with a row count and no
    message, or FAILED with a message and no row count. *)
Theorem run_only_appends (E : Env) (config : IngestionConfig) (w : World) :
  exists added,
    registry (run E config w).2 = registry w ++ added /\
    Forall well_formed added /\
    match setup_and_discover E config w with
    | (Returned files, _) =>
        (length added <= length files)%nat /\
        Forall (fun r => exists p, p ∈ files /\ file_name r = path_name p) added
    | (Raised _, _) => added = []
    end.
Proof.
  rewrite run_run.
  pose proof (leaves_setup_and_discover E config w) as [Hr0 _].
  destruct (setup_and_discover E config w) as [[files|e] w0]; simpl in Hr0.
  - destruct (process_files_append E config files no_counts w0) as (added & Hreg & Hlen & Hall).
    exists added. rewrite Hr0 in Hreg.
    assert (Forall well_formed added /\
            ((length added <= length files)%nat /\
             Forall (fun r => exists p, p ∈ files /\ file_name r = path_name p) added)) as Hrest.
    { split; [|split; [done|]]; (eapply Forall_impl; [exact Hall|]); by intros r [? ?]. }
    split; [|exact Hrest].
    destruct files as [|file_path files]; [done|].
    by destruct (process_files E config (file_path :: files) no_counts w0) as [[counts|e] w1].
  - exists []. rewrite app_nil_r. simpl. by repeat split.
Qed.

(** X8.  The dry-run flag does not reach the setup.  When the registry table
    cannot be fetched, [run] calls for its creation, in dry-run mode as in any
    other. *)
Theorem setup_creates_missing_registry_table (E : Env) (config : IngestionConfig) (w : World)
    (e : exn) :
  registry_get_table E (ticks w) = Raised e ->
  EvRegistryCreateTable ∈ trace (run E config w).2.
Proof.
  intros Hget.
  assert (exists w1, EvRegistryCreateTable ∈ trace w1 /\
            forall k : unit -> M (list Path),
              (forall u, emits (fun _ => True) (k u)) ->
              EvRegistryCreateTable ∈ trace ((ensure_registry_exists E ≫= k) w).2) as (w1 & _ & Hk).
  { exists (emit EvRegistryCreateTable (emit EvRegistryGetTable w)). split.
    - simpl. apply elem_of_app. right. left.
    - intros k Hemits. rewrite bind_run. unfold ensure_registry_exists.
      rewrite try_except_run. unfold call at 1. rewrite Hget. unfold call.
      destruct (registry_create_table E _) as [[]|e'].
      + destruct (Hemits () (emit EvRegistryCreateTable (emit EvRegistryGetTable w)))
          as (added & -> & _).
        simpl. rewrite !elem_of_app, !list_elem_of_singleton. tauto.
      + simpl. rewrite !elem_of_app, !list_elem_of_singleton. tauto. }
  assert (forall P : Event -> Prop, (forall ev, P ev) ->
            forall file_path, emits P (_process_file E config file_path)) as Hpf.
  { intros P HP file_path. unfold _process_file.
    apply emits_bind; [by apply emits_calculate|]. intros c.
    apply emits_bind; [by apply emits_should_process|]. intros go.
    destruct (negb go); [apply emits_ret|]. destruct (dry_run config); [apply emits_ret|].
    unfold parse, serialize, upload, load_from_gcs. repeat emits_step. }
  rewrite run_run.
  specialize (Hk (fun _ => there ← table_exists E;
                           _ ← (if negb there then create_table E else mret ());
                           discover E (file_pattern config) (ignore_patterns config))).
  change (ensure_registry_exists E ≫= _) with (setup_and_discover E config) in Hk.
  assert (EvRegistryCreateTable ∈ trace (setup_and_discover E config w).2) as Hin.
  { apply Hk. intros _.
    pose proof (emits_setup_and_discover (fun _ => True) E config) as Hall.
    unfold discover.
    apply emits_bind; [unfold table_exists; repeat emits_step|]. intros there.
    apply emits_bind.
    { destruct (negb there); [|apply emits_ret].
      unfold create_table. apply emits_bind; [unfold table_exists; repeat emits_step|].
      intros []; repeat emits_step. }
    intros _. apply emits_bind.
    { intros w0. exists []. simpl. by rewrite app_nil_r. }
    intros root_there. repeat emits_step. }
  destruct (setup_and_discover E config w) as [[[|file_path files]|e0] w0]; simpl in Hin;
    try done.
  destruct (emits_process_files (fun _ => True) E config (file_path :: files) no_counts
              (Hpf _ (fun _ => I)) w0) as (added & Htr & _).
  destruct (process_files E config (file_path :: files) no_counts w0) as [[counts|e0] w1'];
    simpl in Htr |- *; rewrite Htr; apply elem_of_app; by left.
Qed.

Lemma setup_creates_missing_registry_table_witness :
  registry_get_table first_run_env 0 = Raised (Exc OtherError "404 Not found: Table file_registry") /\
  EvRegistryCreateTable ∈ trace (run first_run_env (demo_config true) empty_world).2.
Proof.
  split; [reflexivity|].
  apply (setup_creates_missing_registry_table first_run_env (demo_config true) empty_world
           (Exc OtherError "404 Not found: Table file_registry")).
  reflexivity.
Defined.

(** ** The checksum (checksum.py) *)

Lemma append_cons a s t : String a s +:+ t = String a (s +:+ t).
Proof. reflexivity. Qed.

Lemma append_nil_r s : s +:+ "" = s.
Proof. induction s as [|a s IH]; [done|]. by rewrite append_cons, IH. Qed.

Lemma append_assoc s1 s2 s3 : (s1 +:+ s2) +:+ s3 = s1 +:+ (s2 +:+ s3).
Proof. induction s1 as [|a s1 IH]; [done|]. by rewrite !append_cons, IH. Qed.

(** Feeding the hasher chunk by chunk feeds it the content. *)
Lemma fold_append_concat chunks acc :
  fold_left String.append chunks acc = acc +:+ String.concat "" chunks.
Proof.
  revert acc. induction chunks as [|c chunks IH]; intros acc.
  - simpl. by rewrite append_nil_r.
  - change (fold_left String.append (c :: chunks) acc)
      with (fold_left String.append chunks (acc +:+ c)).
    rewrite IH, append_assoc. f_equal.
    destruct chunks as [|c' chunks]; [simpl; by rewrite append_nil_r|done].
Qed.

(** X9.  The checksum is a function of the algorithm and of the content
    alone: two readable files whose chunks, however they were cut, join to the
    same content get the same checksum. *)
Theorem checksum_depends_on_content_only (E : Env) (algorithm : string) (p1 p2 : Path)
    (w1 w2 : World) (chunks1 chunks2 : list string) :
  read_chunks E (ticks w1) p1 = Returned chunks1 ->
  read_chunks E (ticks w2) p2 = Returned chunks2 ->
  String.concat "" chunks1 = String.concat "" chunks2 ->
  (calculate E algorithm p1 w1).1 = (calculate E algorithm p2 w2).1.
Proof.
  intros H1 H2 Hsame. rewrite !calculate_run. case_decide; [|done]. simpl.
  rewrite H1, H2, !fold_append_concat. simpl. by rewrite Hsame.
Qed.

Lemma checksum_depends_on_content_only_witness :
  (calculate (demo_env [] [] false InsertOk demo_rows) "sha256" ["in"; "a.xlsx"] empty_world).1
  = (calculate (demo_env [] [] false InsertOk demo_rows) "sha256" ["copy"; "a.xlsx"]
       after_success).1.
Proof.
  apply (checksum_depends_on_content_only _ "sha256" ["in"; "a.xlsx"] ["copy"; "a.xlsx"]
           empty_world after_success ["a.xlsx"] ["a.xlsx"]); reflexivity.
Defined.

(** X10.  With an algorithm other than [md5] and [sha256] no file is opened:
    [calculate] raises a [ValueError] at once, so every file of the loop is
    counted as failed, the world stays as it was and nothing reaches the
    registry. *)
Theorem unsupported_algorithm_fails_every_file (E : Env) (config : IngestionConfig)
    (files : list Path) (counts : Counts) (w : World) :
  checksum_algorithm config <> "md5" ->
  checksum_algorithm config <> "sha256" ->
  (forall file_path,
     calculate E (checksum_algorithm config) file_path w
     = (Raised (Exc ValueError ("Unsupported algorithm: " +:+ checksum_algorithm config)), w)) /\
  process_files E config files counts w
  = (Returned {| processed_count := processed_count counts;
                 skipped_count := skipped_count counts;
                 failed_count := failed_count counts + length files |}, w).
Proof.
  intros Hmd5 Hsha.
  assert (forall file_path w0,
            calculate E (checksum_algorithm config) file_path w0
            = (Raised (Exc ValueError ("Unsupported algorithm: " +:+ checksum_algorithm config)),
               w0)) as Hcalc.
  { intros file_path w0. rewrite calculate_run. rewrite decide_False; [done|]. tauto. }
  split; [intros; apply Hcalc|].
  revert counts. induction files as [|file_path files IH]; intros counts.
  - simpl. destruct counts. simpl. by rewrite Nat.add_0_r.
  - rewrite process_files_cons, _process_file_run, Hcalc, IH. simpl.
    do 2 f_equal. f_equal. lia.
Qed.

Lemma unsupported_algorithm_fails_every_file_witness :
  process_files calm_env
    {| input_directory := ["in"]; gcs_bucket := "bucket"; gcs_prefix := "";
       schema := demo_schema; file_pattern := "**/*.xlsx"; output_format := "parquet";
       checksum_algorithm := "sha1"; dry_run := false;
       ignore_patterns := default_ignore_patterns |}
    [["in"; "a.xlsx"]; ["in"; "c.xlsx"]] no_counts empty_world
  = (Returned {| processed_count := 0; skipped_count := 0; failed_count := 2 |}, empty_world).
Proof.
  exact (proj2 (unsupported_algorithm_fails_every_file calm_env
                  {| input_directory := ["in"]; gcs_bucket := "bucket"; gcs_prefix := "";
                     schema := demo_schema; file_pattern := "**/*.xlsx";
                     output_format := "parquet"; checksum_algorithm := "sha1";
                     dry_run := false; ignore_patterns := default_ignore_patterns |}
                  [["in"; "a.xlsx"]; ["in"; "c.xlsx"]] no_counts empty_world
                  ltac:(discriminate) ltac:(discriminate))).
Defined.

(** ** Errors of the collaborators, as the registry gets them *)

(** X11.  Whatever the spreadsheet library raises, [parse] raises a
    [ValueError] that names the file and carries the cause; [_process_file]
    stops there, without serialising, uploading or loading, records FAILED
    with that message and raises the [ValueError] again. *)
Theorem parse_failure_is_recorded_with_the_path (E : Env) (config : IngestionConfig)
    (file_path : Path) (w : World) (checksum0 : string) (w1 w2 : World) (cause : exn) :
  calculate E (checksum_algorithm config) file_path w = (Returned checksum0, w1) ->
  should_process E file_path checksum0 w1 = (Returned true, w2) ->
  dry_run config = false ->
  xlsx_rows E (ticks w2) file_path = Raised cause ->
  let e := Exc ValueError
             ("Failed to parse " +:+ path_str file_path +:+ ": " +:+ exc_msg cause) in
  let row := {| file_name := path_name file_path;
                checksum := checksum0;
                processed_at := utcnow E (S (ticks w2));
                status := FAILED;
                error_message := Some (exc_msg e);
                row_count := None |} in
  exists w4,
    parse E file_path w2 = (Raised e, emit (EvParse file_path) w2) /\
    _process_file E config file_path w = (Raised e, w4) /\
    trace w4 = trace w2 ++ [EvParse file_path; EvInsert row].
Proof.
  intros Hc Hs Hdry Hx e row.
  assert (parse E file_path w2 = (Raised e, emit (EvParse file_path) w2)) as Hp.
  { unfold parse. rewrite try_except_run. unfold call. by rewrite Hx. }
  assert (stages E config file_path checksum0 w2 = (Raised e, emit (EvParse file_path) w2))
    as Hst.
  { unfold stages. by rewrite bind_run, Hp. }
  eexists. split; [done|]. split.
  - by rewrite _process_file_run, Hc, Hs, Hdry, Hst.
  - unfold recorded. simpl. by rewrite <- app_assoc.
Qed.

(** X12.  When the load job fails, the file is already uploaded.
    [load_from_gcs] turns whatever the client raises into a [RuntimeError]
    that carries the cause; [_process_file] records FAILED with that message
    after the parse, the serialisation and the upload took place. *)
Theorem load_failure_is_recorded_after_the_upload (E : Env) (config : IngestionConfig)
    (file_path : Path) (w : World) (checksum0 : string) (w1 w2 : World)
    (data : list RawRow) (wa : World) (data_normalized : list NormRow) (wb : World)
    (serialized_path : Path) (wc : World) (gcs_uri : string) (wd : World) (cause : exn) :
  calculate E (checksum_algorithm config) file_path w = (Returned checksum0, w1) ->
  should_process E file_path checksum0 w1 = (Returned true, w2) ->
  dry_run config = false ->
  parse E file_path w2 = (Returned data, wa) ->
  normalize E (schema config) data file_path checksum0 wa = (Returned data_normalized, wb) ->
  serialize E (output_format config) data_normalized (path_stem file_path) wb
    = (Returned serialized_path, wc) ->
  upload E (gcs_bucket config) (gcs_prefix config) serialized_path wc = (Returned gcs_uri, wd) ->
  load_job E (ticks wd) gcs_uri = Raised cause ->
  let e := Exc RuntimeError ("BigQuery load job failed: " +:+ exc_msg cause) in
  let row := {| file_name := path_name file_path;
                checksum := checksum0;
                processed_at := utcnow E (S (ticks wd));
                status := FAILED;
                error_message := Some (exc_msg e);
                row_count := None |} in
  exists w4,
    _process_file E config file_path w = (Raised e, w4) /\
    trace w4 = trace w2 ++ [EvParse file_path;
                            EvSerialize data_normalized (path_stem file_path);
                            EvUpload serialized_path;
                            EvLoad gcs_uri;
                            EvInsert row].
Proof.
  intros Hc Hs Hdry Hp Hn Hse Hu Hl e row.
  assert (load_from_gcs E gcs_uri wd = (Raised e, emit (EvLoad gcs_uri) wd)) as Hload.
  { unfold load_from_gcs. rewrite try_except_run. unfold call. by rewrite Hl. }
  assert (stages E config file_path checksum0 w2 = (Raised e, emit (EvLoad gcs_uri) wd))
    as Hst.
  { unfold stages. by rewrite bind_run, Hp, bind_run, Hn, bind_run, Hse, bind_run, Hu,
      bind_run, Hload. }
  eexists. split.
  - by rewrite _process_file_run, Hc, Hs, Hdry, Hst.
  - unfold recorded. simpl.
    assert (trace wa = trace w2 ++ [EvParse file_path]) as Ha.
    { unfold parse in Hp. rewrite try_except_run in Hp. unfold call in Hp.
      destruct (xlsx_rows E (ticks w2) file_path); by injection Hp as _ <-. }
    assert (trace wb = trace wa) as Hb.
    { destruct (emits_normalize (fun _ => False) E (schema config) data file_path checksum0 wa)
        as (added & Htr & Hall).
      rewrite Hn in Htr. simpl in Htr. destruct Hall as [|ev ? []]. by rewrite app_nil_r in Htr. }
    assert (trace wc = trace wb ++ [EvSerialize data_normalized (path_stem file_path)]) as Hc'.
    { unfold serialize in Hse. rewrite try_except_reraise in Hse. unfold call in Hse.
      by injection Hse as _ <-. }
    assert (trace wd = trace wc ++ [EvUpload serialized_path]) as Hd.
    { unfold upload in Hu. rewrite try_except_reraise, bind_run in Hu. unfold call in Hu.
      destruct (upload_from_filename E (ticks wc) serialized_path); by injection Hu as _ <-. }
    rewrite Hd, Hc', Hb, Ha, <- !app_assoc. done.
Qed.

Lemma parse_failure_is_recorded_with_the_path_witness :
  exists w4,
    _process_file (with_faults calm_env (Some (Exc OtherError "File is not a zip file")) None)
      (demo_config false) ["in"; "a.xlsx"] empty_world
    = (Raised (Exc ValueError "Failed to parse in/a.xlsx: File is not a zip file"), w4) /\
    inserts (trace w4)
    = [ {| file_name := "a.xlsx"; checksum := "sha256:a.xlsx"; processed_at := 3;
           status := FAILED;
           error_message := Some "Failed to parse in/a.xlsx: File is not a zip file";
           row_count := None |} ].
Proof.
  pose (E := with_faults calm_env (Some (Exc OtherError "File is not a zip file")) None).
  pose (w1 := emit (EvReadFile ["in"; "a.xlsx"]) empty_world).
  destruct (parse_failure_is_recorded_with_the_path E (demo_config false) ["in"; "a.xlsx"]
              empty_world "sha256:a.xlsx" w1 (emit (EvQuery "a.xlsx") w1)
              (Exc OtherError "File is not a zip file"))
    as (w4 & _ & Hpf & Htr); try by vm_compute.
  exists w4. split; [exact Hpf|]. rewrite Htr. by vm_compute.
Defined.

Lemma load_failure_is_recorded_after_the_upload_witness :
  exists w4,
    _process_file (with_faults calm_env None (Some (Exc OtherError "403 Access Denied")))
      (demo_config false) ["in"; "a.xlsx"] empty_world
    = (Raised (Exc RuntimeError "BigQuery load job failed: 403 Access Denied"), w4) /\
    EvUpload ["/"; "tmp"; "a.parquet"] ∈ trace w4.
Proof.
  pose (E := with_faults calm_env None (Some (Exc OtherError "403 Access Denied"))).
  pose (w1 := emit (EvReadFile ["in"; "a.xlsx"]) empty_world).
  pose (w2 := emit (EvQuery "a.xlsx") w1).
  pose (wa := emit (EvParse ["in"; "a.xlsx"]) w2).
  pose (n := normalize E demo_schema (demo_rows "a.xlsx") ["in"; "a.xlsx"] "sha256:a.xlsx" wa).
  pose (dn := match n.1 with Returned dn => dn | Raised _ => [] end).
  pose (wc := emit (EvSerialize dn "a") n.2).
  destruct (load_failure_is_recorded_after_the_upload E (demo_config false) ["in"; "a.xlsx"]
              empty_world "sha256:a.xlsx" w1 w2 (demo_rows "a.xlsx") wa dn n.2
              ["/"; "tmp"; "a.parquet"] wc "gs://bucket/mot-ingestion/a.parquet"
              (emit (EvUpload ["/"; "tmp"; "a.parquet"]) wc)
              (Exc OtherError "403 Access Denied"))
    as (w4 & Hpf & Htr); try by vm_compute.
  exists w4. split; [exact Hpf|]. rewrite Htr.
  rewrite !elem_of_app, !elem_of_cons. tauto.
Defined.

(** ** What the normalised rows hold (schema.py) *)

Lemma normalize_rows_made E schema0 data source_file checksum0 acc w out w' :
  normalize_rows E schema0 data source_file checksum0 acc w = (Returned out, w') ->
  exists rows, out = acc ++ rows /\
               Forall2 (row_made_of E schema0 source_file checksum0) data rows.
Proof.
  revert acc w. induction data as [|row data IH]; intros acc w; simpl.
  - intros [= <- _]. exists []. rewrite app_nil_r. by split.
  - rewrite bind_run. unfold lift.
    destruct (cast_fields schema0 row []) as [r0|e] eqn:Hr0; [|done].
    rewrite bind_run. unfold read_clock. intros Hrun.
    apply IH in Hrun as (rows & -> & Hall).
    eexists (_ :: rows). rewrite <- app_assoc. split; [done|].
    constructor; [|done]. by exists r0, (utcnow E (ticks w)).
Qed.

Lemma normalize_made E schema0 data source_file checksum0 w out w' :
  normalize E schema0 data source_file checksum0 w = (Returned out, w') ->
  Forall2 (row_made_of E schema0 source_file checksum0) data out.
Proof.
  unfold normalize. destruct data as [|row data]; [intros [= <- _]; constructor|].
  intros Hrun. by apply normalize_rows_made in Hrun as (rows & -> & Hall).
Qed.

Lemma cast_fields_values fields row acc out :
  cast_fields fields row acc = Returned out ->
  NoDup (name <$> fields) ->
  (forall field, field ∈ fields ->
     exists v, _cast_value (cell row field) (type field) (name field) = Returned v /\
               dict_get (name field) out = Some v) /\
  (forall k, k ∉ name <$> fields -> dict_get k out = dict_get k acc).
Proof.
  revert acc. induction fields as [|f fields IH]; intros acc; simpl.
  - intros [= <-] _. split; [by intros ? ?%elem_of_nil|done].
  - fold (cell row f).
    destruct (_cast_value (cell row f) (type f) (name f)) as [v|e] eqn:Hv; [|done]. simpl.
    intros Hout [Hnotin Hnd]%NoDup_cons. destruct (IH _ Hout Hnd) as [Hin Hother]. split.
    + intros field [->|Hfield]%elem_of_cons; [|by apply Hin].
      exists v. split; [done|]. by rewrite (Hother _ Hnotin), dict_get_set.
    + intros k Hk. apply not_elem_of_cons in Hk as [Hne Hk].
      by rewrite (Hother _ Hk), dict_get_set_ne.
Qed.

(** X13.  [normalize] keeps the rows in their order, one output row for
    each input row.  With column names that are all different and none an
    audit key, a column of an output row holds what [_cast_value] makes of the
    cell of that name in the input row, and [None] when the input row has no
    such cell. *)
Theorem normalize_casts_cell_by_cell (E : Env) (schema0 : list SchemaField)
    (data : list RawRow) (source_file : Path) (checksum0 : string) (w : World)
    (out : list NormRow) (w' : World) :
  normalize E schema0 data source_file checksum0 w = (Returned out, w') ->
  NoDup ((name <$> schema0) ++ audit_keys) ->
  Forall2 (fun row r =>
             forall field, field ∈ schema0 ->
               (exists v,
                  _cast_value (default (Some "") (row !! name field)) (type field) (name field)
                    = Returned v /\
                  dict_get (name field) r = Some v) /\
               (row !! name field = None -> dict_get (name field) r = Some VNone))
          data out.
Proof.
  intros Hrun Hnd. apply normalize_made in Hrun.
  eapply Forall2_impl; [exact Hrun|]. clear Hrun.
  intros row r (r0 & t & Hr0 & ->) field Hfield.
  apply NoDup_app in Hnd as (Hnd & Hdisj & _).
  destruct (cast_fields_values _ _ _ _ Hr0 Hnd) as [Hin _].
  destruct (Hin field Hfield) as (v & Hv & Hget).
  assert (name field ∈ name <$> schema0) as Hname by (by apply list_elem_of_fmap_2).
  assert (dict_get (name field)
            (dict_set "ingest_ts" (VStr (isoformat E t))
               (dict_set "checksum" (VStr checksum0)
                  (dict_set "source_file" (VStr (path_str source_file)) r0))) = Some v) as Hfinal.
  { specialize (Hdisj _ Hname). unfold audit_keys in Hdisj.
    rewrite !dict_get_set_ne; [done|..]; intros Heq; apply Hdisj; rewrite <- Heq;
      rewrite !elem_of_cons; tauto. }
  split.
  - exists v. by split.
  - intros Hmissing. rewrite Hfinal. f_equal.
    unfold cell in Hv. rewrite Hmissing in Hv. simpl in Hv. by injection Hv.
Qed.

(** X14.  What [_cast_value] returns carries the declared type: an [int] in
    an INTEGER column, a [float] in a FLOAT column, a [bool] in a BOOLEAN
    column, a [str] in any other, or [None]. *)
Theorem cast_value_fits_the_type (value : option string) (target_type column_name : string)
    (v : Value) :
  _cast_value value target_type column_name = Returned v -> fits target_type v.
Proof.
  rewrite _cast_value_cases. destruct value as [s|]; [|by intros [= <-]].
  repeat case_decide; subst; try (intros [= <-]; done).
  - by destruct (py_float s) as [[| | |]|]; intros [= <-].
  - by destruct (py_float s); intros [= <-].
Qed.

(** X15.  The schema handed to the load job and the serialised rows agree on
    the columns: when the names of [_convert_schema] are all different, they
    are the keys of every row [normalize] returns, in the same order.  The
    load schema has three fields more than the target schema. *)
Theorem load_schema_names_the_row_keys (E : Env) (schema0 : list SchemaField)
    (data : list RawRow) (source_file : Path) (checksum0 : string) (w : World)
    (out : list NormRow) (w' : World) :
  normalize E schema0 data source_file checksum0 w = (Returned out, w') ->
  NoDup (name <$> _convert_schema schema0) ->
  length (_convert_schema schema0) = (length schema0 + 3)%nat /\
  forall r, r ∈ out -> keys r = name <$> _convert_schema schema0.
Proof.
  intros Hrun Hnd.
  assert (name <$> _convert_schema schema0 = (name <$> schema0) ++ audit_keys) as Hnames.
  { unfold _convert_schema. rewrite fmap_app, <- list_fmap_compose. done. }
  split.
  { unfold _convert_schema. rewrite length_app, length_fmap. done. }
  intros r Hr. apply normalize_made in Hrun.
  apply list_elem_of_lookup in Hr as [i Hi].
  destruct (Forall2_lookup_r _ _ _ _ _ Hrun Hi) as (row & _ & r0 & t & Hr0 & ->).
  rewrite !keys_dict_set, (cast_fields_keys _ _ _ _ Hr0), Hnames.
  change (fold_left add_key (name <$> schema0) (keys []))
    with (fold_left add_key (name <$> schema0) []).
  rewrite Hnames in Hnd.
  assert (forall acc k, (if decide (k ∈ acc) then acc else acc ++ [k]) = add_key acc k) as Hadd
    by done.
  rewrite !Hadd.
  change (add_key (add_key (add_key (fold_left add_key (name <$> schema0) []) "source_file")
                     "checksum") "ingest_ts")
    with (fold_left add_key audit_keys (fold_left add_key (name <$> schema0) [])).
  rewrite <- fold_left_app. by apply (key_order_NoDup ((name <$> schema0) ++ audit_keys)).
Qed.

Lemma normalize_casts_cell_by_cell_witness :
  exists out w',
    normalize calm_env demo_schema (demo_rows "a.xlsx") ["in"; "a.xlsx"] "abc" empty_world
      = (Returned out, w') /\
    NoDup ((name <$> demo_schema) ++ audit_keys) /\
    Forall2 (fun row r =>
               forall field, field ∈ demo_schema ->
                 (exists v,
                    _cast_value (default (Some "") (row !! name field)) (type field) (name field)
                      = Returned v /\
                    dict_get (name field) r = Some v) /\
                 (row !! name field = None -> dict_get (name field) r = Some VNone))
            (demo_rows "a.xlsx") out.
Proof.
  destruct (normalize calm_env demo_schema (demo_rows "a.xlsx") ["in"; "a.xlsx"] "abc"
              empty_world) as [[out|e] w'] eqn:Hrun; [|by vm_compute in Hrun].
  assert (NoDup ((name <$> demo_schema) ++ audit_keys)) as Hnd.
  { vm_compute. repeat constructor; set_solver. }
  exists out, w'. split; [done|]. split; [exact Hnd|].
  exact (normalize_casts_cell_by_cell calm_env demo_schema (demo_rows "a.xlsx")
           ["in"; "a.xlsx"] "abc" empty_world out w' Hrun Hnd).
Defined.

Lemma cast_value_fits_the_type_witness :
  _cast_value (Some "3.7") "INTEGER" "A" = Returned (VInt 3) /\
  fits "INTEGER" (VInt 3).
Proof.
  assert (_cast_value (Some "3.7") "INTEGER" "A" = Returned (VInt 3)) as Hcast
    by (by vm_compute).
  split; [exact Hcast|].
  exact (cast_value_fits_the_type (Some "3.7") "INTEGER" "A" (VInt 3) Hcast).
Defined.

Lemma load_schema_names_the_row_keys_witness :
  exists out w',
    normalize calm_env demo_schema (demo_rows "a.xlsx") ["in"; "a.xlsx"] "abc" empty_world
      = (Returned out, w') /\
    NoDup (name <$> _convert_schema demo_schema) /\
    length (_convert_schema demo_schema) = 5%nat /\
    forall r, r ∈ out -> keys r = ["A"; "B"; "source_file"; "checksum"; "ingest_ts"].
Proof.
  destruct (normalize calm_env demo_schema (demo_rows "a.xlsx") ["in"; "a.xlsx"] "abc"
              empty_world) as [[out|e] w'] eqn:Hrun; [|by vm_compute in Hrun].
  assert (NoDup (name <$> _convert_schema demo_schema)) as Hnd.
  { vm_compute. repeat constructor; set_solver. }
  exists out, w'. split; [done|]. split; [exact Hnd|].
  exact (load_schema_names_the_row_keys calm_env demo_schema (demo_rows "a.xlsx")
           ["in"; "a.xlsx"] "abc" empty_world out w' Hrun Hnd).
Defined.

(** ** The setup and the discovery in a run (pipeline.py, discovery.py) *)

Lemma setup_and_discover_split E config w :
  setup_and_discover E config w =
  match setup E w with
  | (Returned _, w1) => discover E (file_pattern config) (ignore_patterns config) w1
  | (Raised e, w1) => (Raised e, w1)
  end.
Proof.
  unfold setup_and_discover, setup. rewrite !bind_run.
  destruct (ensure_registry_exists E w) as [[[]|e] w1]; [|done].
  rewrite !bind_run. destruct (table_exists E w1) as [[there|e] w2]; [|done].
  rewrite bind_run. by destruct ((if negb there then create_table E else mret ()) w2) as [[[]|e] w3].
Qed.

Lemma table_exists_run E w :
  table_exists E w = (Returned (is_returned (target_get_table E (ticks w))), emit EvTableExists w).
Proof.
  unfold table_exists. rewrite try_except_run, bind_run. unfold call.
  by destruct (target_get_table E (ticks w)).
Qed.

Lemma emits_setup E : emits provisions (setup E).
Proof.
  unfold setup, ensure_registry_exists, create_table, table_exists. repeat emits_step.
Qed.

Lemma leaves_setup E : leaves_registry (setup E).
Proof. unfold setup. repeat leaves_step. Qed.

Lemma setup_with_tables E w :
  (forall t, registry_get_table E t = Returned ()) ->
  (forall t, target_get_table E t = Returned ()) ->
  exists w1, setup E w = (Returned (), w1).
Proof.
  intros Hreg Htarget. eexists.
  unfold setup, ensure_registry_exists, table_exists.
  rewrite bind_run, try_except_run. unfold call at 1. rewrite Hreg.
  rewrite bind_run, try_except_run, bind_run. unfold call at 1. rewrite Htarget.
  reflexivity.
Qed.

(** X16.  A missing input directory is no error.  [discover] returns no file
    without asking the glob, and [run] ends with the code 0 once the tables
    are there (2 when the setup raised): nothing is read, queried or recorded,
    the registry keeps its rows. *)
Theorem missing_input_directory_exits_cleanly (E : Env) (config : IngestionConfig) (w : World) :
  (forall t, root_exists E t = false) ->
  (forall pattern ignore_patterns0 w0,
     discover E pattern ignore_patterns0 w0 = (Returned [], tick w0)) /\
  exists code w' added,
    run E config w = (Returned code, w') /\
    (code = 0 \/ code = 2) /\
    ((forall t, registry_get_table E t = Returned ()) ->
     (forall t, target_get_table E t = Returned ()) -> code = 0) /\
    registry w' = registry w /\
    trace w' = trace w ++ added /\ Forall provisions added.
Proof.
  intros Hroot.
  assert (forall pattern ignore_patterns0 w0,
            discover E pattern ignore_patterns0 w0 = (Returned [], tick w0)) as Hdisc.
  { intros pattern ignore_patterns0 w0. unfold discover. rewrite bind_run. by rewrite Hroot. }
  split; [exact Hdisc|].
  rewrite run_run, setup_and_discover_split.
  destruct (emits_setup E w) as (added & Htr & Hall).
  destruct (leaves_setup E w) as [Hreg _].
  destruct (setup E w) as [[[]|e] w1] eqn:Hsetup; simpl in Htr, Hreg.
  - rewrite Hdisc. exists 0, (tick w1), added. repeat split; try done. by left.
  - exists 2, w1, added. repeat split; try done; [by right|].
    intros H1 H2. destruct (setup_with_tables E w H1 H2) as [w1' Hret]. congruence.
Qed.

Lemma missing_input_directory_exits_cleanly_witness :
  (forall t, root_exists (with_site calm_env false true) t = false) /\
  discover (with_site calm_env false true) "**/*.xlsx" [] empty_world
    = (Returned [], tick empty_world) /\
  run (with_site calm_env false true) (demo_config false) empty_world
    = (Returned 0, {| registry := []; trace := [EvRegistryGetTable; EvTableExists]; ticks := 3 |}).
Proof.
  assert (forall t, root_exists (with_site calm_env false true) t = false) as Hroot by done.
  split; [exact Hroot|].
  destruct (missing_input_directory_exits_cleanly (with_site calm_env false true)
              (demo_config false) empty_world Hroot) as [Hdisc _].
  split; [apply Hdisc|]. by vm_compute.
Defined.

(** X17.  When the target table can be neither fetched nor created, [run]
    ends with the code 2 before any discovery: no file is looked for, read or
    recorded, and the registry keeps its rows. *)
Theorem unprovisioned_target_table_stops_the_run (E : Env) (config : IngestionConfig)
    (w : World) (e1 e2 : exn) :
  (forall t, target_get_table E t = Raised e1) ->
  (forall t, target_create_table E t = Raised e2) ->
  exists w' added,
    run E config w = (Returned 2, w') /\
    registry w' = registry w /\
    trace w' = trace w ++ added /\ Forall provisions added.
Proof.
  intros Hget Hcreate. rewrite run_run, setup_and_discover_split.
  destruct (emits_setup E w) as (added & Htr & Hall).
  destruct (leaves_setup E w) as [Hreg _].
  destruct (setup E w) as [[[]|e] w1] eqn:Hsetup; simpl in Htr, Hreg; [|by exists w1, added].
  exfalso. revert Hsetup. unfold setup. rewrite bind_run.
  destruct (ensure_registry_exists E w) as [[[]|e] w0]; [|done].
  cbv beta iota. rewrite bind_run, (table_exists_run E w0), Hget. cbn [negb is_returned].
  unfold create_table. rewrite bind_run, (table_exists_run E), Hget. cbn [is_returned].
  rewrite try_except_reraise. unfold call. by rewrite Hcreate.
Qed.

Lemma unprovisioned_target_table_stops_the_run_witness :
  (forall t, target_get_table (with_site calm_env true false) t
             = Raised (Exc OtherError "404 Not found: Table mot")) /\
  (forall t, target_create_table (with_site calm_env true false) t
             = Raised (Exc OtherError "403 Permission denied")) /\
  run (with_site calm_env true false) (demo_config false) empty_world
    = (Returned 2,
       {| registry := [];
          trace := [EvRegistryGetTable; EvTableExists; EvTableExists; EvCreateTable];
          ticks := 4 |}).
Proof.
  assert (forall t, target_get_table (with_site calm_env true false) t
                    = Raised (Exc OtherError "404 Not found: Table mot")) as Hget by done.
  assert (forall t, target_create_table (with_site calm_env true false) t
                    = Raised (Exc OtherError "403 Permission denied")) as Hcreate by done.
  split; [exact Hget|]. split; [exact Hcreate|].
  destruct (unprovisioned_target_table_stops_the_run (with_site calm_env true false)
              (demo_config false) empty_world _ _ Hget Hcreate) as (w' & added & Hrun & _).
  rewrite Hrun. f_equal. vm_compute in Hrun. by injection Hrun.
Defined.

(** X18.  The files come out of [discover] in one order, whatever the order
    in which the glob yields them: two discoveries whose globs return the same
    hits, in any order, return the same list. *)
Theorem discovery_ignores_glob_order (E1 E2 : Env) (pattern : string)
    (ignore_patterns0 : list string) (w1 w2 : World) (hits1 hits2 : list (Path * bool)) :
  root_exists E1 (ticks w1) = true ->
  glob E1 (S (ticks w1)) pattern = Returned hits1 ->
  root_exists E2 (ticks w2) = true ->
  glob E2 (S (ticks w2)) pattern = Returned hits2 ->
  hits1 ≡ₚ hits2 ->
  exists files,
    (discover E1 pattern ignore_patterns0 w1).1 = Returned files /\
    (discover E2 pattern ignore_patterns0 w2).1 = Returned files.
Proof.
  intros Hroot1 Hglob1 Hroot2 Hglob2 Hperm.
  exists (sorted (collect (init_ignore_patterns ignore_patterns0) hits1 [])).
  unfold discover. rewrite !bind_run. simpl. rewrite Hroot1, Hroot2. simpl.
  rewrite !bind_run. unfold call. simpl. rewrite Hglob1, Hglob2. simpl.
  split; [done|]. f_equal. unfold sorted.
  apply (StronglySorted_unique path_le).
  - apply StronglySorted_merge_sort; apply _.
  - apply StronglySorted_merge_sort; apply _.
  - rewrite !merge_sort_Permutation, !collect_filter. simpl. by rewrite Hperm.
Qed.

Lemma discovery_ignores_glob_order_witness :
  demo_hits ≡ₚ reverse demo_hits /\
  (discover calm_env "**/*.xlsx" [] empty_world).1
    = Returned [["in"; "a.xlsx"]; ["in"; "b.xlsx"]; ["in"; "c.xlsx"]] /\
  (discover (demo_env (reverse demo_hits) [] false InsertOk demo_rows) "**/*.xlsx" []
     empty_world).1
    = Returned [["in"; "a.xlsx"]; ["in"; "b.xlsx"]; ["in"; "c.xlsx"]].
Proof.
  assert (demo_hits ≡ₚ reverse demo_hits) as Hperm by (symmetry; apply reverse_Permutation).
  split; [exact Hperm|].
  destruct (discovery_ignores_glob_order calm_env
              (demo_env (reverse demo_hits) [] false InsertOk demo_rows) "**/*.xlsx" []
              empty_world empty_world demo_hits (reverse demo_hits)
              eq_refl eq_refl eq_refl eq_refl Hperm) as (files & H1 & H2).
  rewrite H2, H1. split; by vm_compute.
Defined.

(** ** A success the registry did not take (pipeline.py, state.py) *)


